(** * PageStack: URL list to EPUB pipeline

    A shallow embedding of [pagestack/main.py] (content cleaning, image
    embedding, document assembly) and of the incremental delivery step of
    [pagestack/auto.py], with the properties of the natural-language
    specification stated and proved (or refuted) over it.

    Conventions of the model:
    - Python [str] values are [string]s; the model covers ASCII text
      (Python's Unicode white space and Unicode digits are out of its range);
    - an element's attribute dictionary is an association list in insertion
      order, with string values (none of the attributes the code reads is a
      multi-valued one);
    - the network, the clock and the mail transport are an explicit [World]
      threaded through the calls; a call that raises returns [None];
    - the library services the code calls (HTML parsing and serialisation,
      [urljoin], MD5, [mimetypes], PIL, readability) are the fields of the
      class [Services]. *)

From Stdlib Require Import ZArith Ascii String List Bool Lia DecimalString DecimalNat.
From Stdlib.Strings Require Import Byte.
From stdpp Require Import base option list strings gmap sorting.

Local Open Scope string_scope.
Local Open Scope list_scope.

(** ** Python string primitives *)

Module PyStr.

(** [str.isspace] on one ASCII character: TAB, LF, VT, FF, CR, the four
    separators FS..US and the space. *)
Definition is_space (c : ascii) : bool :=
  let n := nat_of_ascii c in
  ((9 <=? n)%nat && (n <=? 13)%nat) || ((28 <=? n)%nat && (n <=? 32)%nat).

Fixpoint lstrip (s : string) : string :=
  match s with
  | EmptyString => EmptyString
  | String c r => if is_space c then lstrip r else s
  end.

Fixpoint rstrip (s : string) : string :=
  match s with
  | EmptyString => EmptyString
  | String c r =>
      match rstrip r with
      | EmptyString => if is_space c then EmptyString else String c EmptyString
      | r' => String c r'
      end
  end.

(** [s.strip()] *)
Definition strip (s : string) : string := rstrip (lstrip s).

(** Python truthiness of a string. *)
Definition truthy (s : string) : bool :=
  match s with EmptyString => false | _ => true end.

(** [s.startswith(p)] *)
Definition startswith (p s : string) : bool := String.prefix p s.

(** [s.split(sep)] for a separator recognised character by character: empty
    fields are kept, and the empty string gives one empty field. *)
Fixpoint split_on (p : ascii -> bool) (s : string) : list string :=
  match s with
  | EmptyString => [EmptyString]
  | String c r =>
      if p c then EmptyString :: split_on p r
      else match split_on p r with
           | h :: t => String c h :: t
           | [] => [String c EmptyString]
           end
  end.

Definition is_comma (c : ascii) : bool := Ascii.eqb c ","%char.

(** [s.split(",")] *)
Definition split_comma (s : string) : list string := split_on is_comma s.

(** [s.split()]: fields separated by runs of white space, no empty field. *)
Definition split_ws (s : string) : list string :=
  List.filter truthy (split_on is_space s).

(** [s.replace(c, new)] for a one-character [c]. *)
Fixpoint replace_char (c : ascii) (new : string) (s : string) : string :=
  match s with
  | EmptyString => EmptyString
  | String d r =>
      if Ascii.eqb d c then new ++ replace_char c new r
      else String d (replace_char c new r)
  end.

Definition is_digit (c : ascii) : bool :=
  let n := nat_of_ascii c in (48 <=? n)%nat && (n <=? 57)%nat.

Definition digit_val (c : ascii) : Z := Z.of_nat (nat_of_ascii c - 48).

(** The digits of an integer literal as [int()] accepts them: at least one
    digit, single underscores allowed between digits only. [prev] tells
    whether the previous character was a digit. *)
Fixpoint int_digits (acc : Z) (prev : bool) (s : string) : option Z :=
  match s with
  | EmptyString => if prev then Some acc else None
  | String c r =>
      if is_digit c then int_digits (acc * 10 + digit_val c) true r
      else if Ascii.eqb c "_"%char then
             if prev then int_digits acc false r else None
      else None
  end.

(** [int(s)] for a string argument in base 10; [None] is [ValueError]. *)
Definition int (s : string) : option Z :=
  match strip s with
  | String "+" r => int_digits 0 false r
  | String "-" r => Z.opp <$> int_digits 0 false r
  | r => int_digits 0 false r
  end.

(** [f"{n:03d}"]: decimal, left-padded with zeros to three characters. *)
Definition decimal (n : nat) : string :=
  NilEmpty.string_of_uint (Nat.to_uint n).

Definition pad3 (n : nat) : string :=
  let d := decimal n in
  match String.length d with
  | 1%nat => "00" ++ d
  | 2%nat => "0" ++ d
  | _ => d
  end.

End PyStr.

(** ** Markup trees

    What BeautifulSoup builds: text nodes, comments and elements carrying an
    attribute dictionary and an ordered list of children. *)

#[local] Set Warnings "-register-all".

Inductive node : Type :=
| NText (s : string)
| NComment (s : string)
| NElem (name : string) (a : list (string * string)) (children : list node).

Module Attrs.

(** [tag.get(k)] *)
Fixpoint get (k : string) (a : list (string * string)) : option string :=
  match a with
  | [] => None
  | (k', v) :: r => if String.eqb k' k then Some v else get k r
  end.

(** [tag.get(k, d)] *)
Definition get_default (k d : string) (a : list (string * string)) : string :=
  default d (get k a).

(** [tag[k] = v]: an existing key keeps its place, a new key goes last. *)
Fixpoint set (k v : string) (a : list (string * string)) : list (string * string) :=
  match a with
  | [] => [(k, v)]
  | (k', v') :: r =>
      if String.eqb k' k then (k, v) :: r else (k', v') :: set k v r
  end.

(** [del tag.attrs[k]] guarded by [k in tag.attrs]. *)
Definition del (k : string) (a : list (string * string)) : list (string * string) :=
  List.filter (fun kv => negb (String.eqb (fst kv) k)) a.

Definition keys (a : list (string * string)) : list string := List.map fst a.

End Attrs.

(** [x or d] where [x] is the result of [tag.get]: [None] and the empty
    string are both falsy. *)
Definition or_else (x : option string) (d : string) : string :=
  match x with
  | Some (String _ _ as s) => s
  | _ => d
  end.

Definition _UNWANTED_TAGS : list string :=
  ["script"; "style"; "noscript"; "iframe"; "object";
   "embed"; "form"; "button"; "input"; "select"; "textarea";
   "nav"; "aside"; "footer"; "header"; "advertisement"].

Definition _UNWANTED_ATTRS : list string :=
  ["onclick"; "onload"; "onerror"; "class"; "id"; "style";
   "data-src-retina"; "data-original"; "loading"; "decoding";
   "fetchpriority"; "sizes"; "crossorigin"; "referrerpolicy"].

(** The [keep] set of [_sanitise_attrs]. *)
Definition keep_attrs : list string :=
  ["src"; "href"; "alt"; "title"; "colspan"; "rowspan"; "width"; "height"].

Definition mem (k : string) (l : list string) : bool := existsb (String.eqb k) l.

(** [_sanitise_attrs(tag)]: only the keys of [keep] survive. *)
Definition _sanitise_attrs (a : list (string * string)) : list (string * string) :=
  List.filter (fun kv => mem (fst kv) keep_attrs) a.

(** The attribute loop at the end of [clean_html]: the keys of
    [_UNWANTED_ATTRS] are deleted. *)
Definition strip_unwanted_attrs (a : list (string * string)) : list (string * string) :=
  List.filter (fun kv => negb (mem (fst kv) _UNWANTED_ATTRS)) a.

(** *** The srcset pass of [clean_html] *)

(** [[s.strip().split()[0] for s in srcset.split(",") if s.strip()]] *)
Definition srcset_candidates (srcset : string) : list string :=
  flat_map
    (fun s => let t := PyStr.strip s in
              if PyStr.truthy t then [hd EmptyString (PyStr.split_ws t)] else [])
    (PyStr.split_comma srcset).

Definition fix_srcset (a : list (string * string)) : list (string * string) :=
  let srcset := Attrs.get_default "srcset" "" a in
  let a1 :=
    if PyStr.truthy srcset && negb (PyStr.truthy (or_else (Attrs.get "src" a) "")) then
      match last (srcset_candidates srcset) with
      | Some c => Attrs.set "src" c a
      | None => a
      end
    else a in
  Attrs.del "srcset" a1.

(** *** The image rules of [process_images] that need no state *)

(** The source the loop works with: the lazy-loading attributes win over
    [src]. *)
Definition image_source (a : list (string * string)) : string :=
  PyStr.strip
    (or_else (Attrs.get "data-src" a)
       (or_else (Attrs.get "data-lazy-src" a)
          (or_else (Attrs.get "data-original" a)
             (Attrs.get_default "src" "" a)))).

(** The tracking-pixel test, [int(w) <= 2 or int(h) <= 2] inside
    [try ... except (ValueError, TypeError): pass]: [int(w)] is evaluated
    first, [int(h)] only when the width is above 2, and a [ValueError] of
    either leaves the image in. *)
Definition is_tiny (a : list (string * string)) : bool :=
  match PyStr.int (Attrs.get_default "width" "" a) with
  | None => false
  | Some w =>
      if (w <=? 2)%Z then true
      else match PyStr.int (Attrs.get_default "height" "" a) with
           | None => false
           | Some h => (h <=? 2)%Z
           end
  end.

(** [mimetypes.guess_extension(mime) or ".jpg"], then [.jpe]/[.jpeg] become
    [.jpg]. *)
Definition normalise_ext (guess : option string) : string :=
  let ext := or_else guess ".jpg" in
  if mem ext [".jpe"; ".jpeg"] then ".jpg" else ext.

(** [img.parent.name not in ("figure", "p", "a")] *)
Definition wants_figure (parent : string) : bool :=
  negb (mem parent ["figure"; "p"; "a"]).

(** What became of one [<img>]. *)
Inductive placement : Type :=
| Bare
| InFigure (caption : option string).

Inductive outcome : Type :=
| Dropped                                    (* img.decompose() *)
| Untouched                                  (* data URI: left as it is *)
| Cached (a : list (string * string))        (* cache hit *)
| Embedded (a : list (string * string)) (p : placement).  (* downloaded and registered *)

(** The caption of a new figure: the stripped [alt] text when not empty. *)
Definition caption_of (a : list (string * string)) : option string :=
  let alt := PyStr.strip (Attrs.get_default "alt" "" a) in
  if PyStr.truthy alt then Some alt else None.

(** The nodes that stand in the tree where the image stood. *)
Definition outcome_nodes (a : list (string * string)) (ch : list node) (o : outcome)
  : list node :=
  match o with
  | Dropped => []
  | Untouched => [NElem "img" a ch]
  | Cached a' => [NElem "img" a' ch]
  | Embedded a' Bare => [NElem "img" a' ch]
  | Embedded a' (InFigure cap) =>
      [NElem "figure" []
         (NElem "img" a' ch ::
          match cap with
          | Some c => [NElem "figcaption" [] [NText c]]
          | None => []
          end)]
  end.

(** *** The tree passes of [clean_html] that need no state *)

(** [for comment in soup.find_all(string=...Comment): comment.extract()] *)
Fixpoint remove_comments (n : node) : list node :=
  match n with
  | NComment _ => []
  | NText _ => [n]
  | NElem nm a ch => [NElem nm a (flat_map remove_comments ch)]
  end.

(** [for tag in soup.find_all(_UNWANTED_TAGS): tag.decompose()] *)
Fixpoint drop_unwanted (n : node) : list node :=
  match n with
  | NElem nm a ch =>
      if mem nm _UNWANTED_TAGS then [] else [NElem nm a (flat_map drop_unwanted ch)]
  | _ => [n]
  end.

(** The srcset loop over [soup.find_all("img")]. *)
Fixpoint srcset_pass (n : node) : node :=
  match n with
  | NElem nm a ch =>
      NElem nm (if String.eqb nm "img" then fix_srcset a else a) (List.map srcset_pass ch)
  | _ => n
  end.

(** The attribute loop over [soup.find_all(True)], images skipped. *)
Fixpoint strip_attrs_pass (n : node) : node :=
  match n with
  | NElem nm a ch =>
      NElem nm (if String.eqb nm "img" then a else strip_unwanted_attrs a)
        (List.map strip_attrs_pass ch)
  | _ => n
  end.

(** [tag.get_text(strip=True)] is not empty: some text below has a character
    that is not white space. *)
Fixpoint has_text (n : node) : bool :=
  match n with
  | NText s => PyStr.truthy (PyStr.strip s)
  | NComment _ => false
  | NElem _ _ ch => existsb has_text ch
  end.

(** [tag.find("img")] finds something among the nodes [n] and below. *)
Fixpoint has_img (n : node) : bool :=
  match n with
  | NElem nm _ ch => String.eqb nm "img" || existsb has_img ch
  | _ => false
  end.

(** The empty-block loop over [soup.find_all(["p", "div", "span"])]. The list
    is in document order, so an outer block is judged before the blocks in
    it; removing an inner empty block changes neither the text nor the images
    of an outer one. *)
Fixpoint remove_empty (n : node) : list node :=
  match n with
  | NElem nm a ch =>
      if mem nm ["p"; "div"; "span"] && negb (existsb has_text ch) && negb (existsb has_img ch)
      then []
      else [NElem nm a (flat_map remove_empty ch)]
  | _ => [n]
  end.

(** [soup.find("body")]: the children of the first [body] in document order. *)
Fixpoint find_body (n : node) : option (list node) :=
  match n with
  | NElem nm _ ch =>
      if String.eqb nm "body" then Some ch
      else (fix first (l : list node) : option (list node) :=
              match l with
              | [] => None
              | x :: r => match find_body x with Some b => Some b | None => first r end
              end) ch
  | _ => None
  end.

Fixpoint find_body_in (l : list node) : option (list node) :=
  match l with
  | [] => None
  | x :: r => match find_body x with Some b => Some b | None => find_body_in r end
  end.

(** The images of a tree in document order, each with its parent's name:
    [soup.find_all("img")]. An [img] is a void element: the parser gives it
    no children, and nothing is looked for below it. *)
Fixpoint find_all_img (parent : string) (n : node) : list (string * list (string * string)) :=
  match n with
  | NElem nm a ch =>
      if String.eqb nm "img" then [(parent, a)]
      else flat_map (find_all_img nm) ch
  | _ => []
  end.

(** ** The packaged document (ebooklib's objects) *)

Record EpubItem : Type :=
  { uid : string; file_name : string; media_type : string; content : list Byte.byte }.

(** [chap.add_link(href=..., rel=..., type=...)] *)
Record HeadLink : Type :=
  { link_href : string; link_rel : string; link_type : string }.

Record EpubHtml : Type :=
  { html_title : string; html_file_name : string; html_lang : string;
    html_content : string; html_links : list HeadLink }.

(** [epub.Link(href, title, uid)] *)
Record TocLink : Type :=
  { toc_href : string; toc_title : string; toc_uid : string }.

Inductive item : Type :=
| IRes (i : EpubItem)
| IHtml (c : EpubHtml)
| INcx
| INav.

Inductive spine_entry : Type :=
| SpineNav                      (* the string "nav" *)
| SpineChapter (c : EpubHtml).

Record EpubBook : Type :=
  { book_identifier : string; book_title : string; book_language : string;
    book_authors : list string; book_items : list item;
    book_toc : list TocLink; book_spine : list spine_entry }.

(** What [session.get] answers. *)
Record Response : Type :=
  { resp_ok : bool;                       (* raise_for_status() passes *)
    resp_text : string;                   (* decoded with apparent_encoding *)
    resp_url : string;                    (* after redirects *)
    resp_content : list Byte.byte;
    resp_content_type : option string }.  (* the content-type header *)

(** The settings [build_and_send] hands to the mail step. *)
Record MailSettings : Type :=
  { kindle_email : string; smtp_host : string; smtp_port : nat;
    smtp_user : string; smtp_password : string; sender_email : string;
    use_starttls : bool }.

(** ** The services the program calls *)

Class Services : Type :=
  { World : Type;
    (** [session.get(url, timeout=..., allow_redirects=True)]; [None] when it
        raises *)
    http_get : World -> string -> nat -> option Response * World;
    (** readability's [Document(html)]: [doc.short_title()], [doc.title()] and
        [doc.summary(html_partial=True)]; [None] when it raises *)
    readability : string -> option (string * string * string);
    (** [urlparse(url).netloc] *)
    netloc : string -> string;
    (** [BeautifulSoup(raw_html, "lxml")], its top-level nodes *)
    parse_html : string -> list node;
    (** [body.decode_contents()] *)
    decode_contents : list node -> string;
    (** [str(soup)] *)
    soup_str : list node -> string;
    (** [urljoin(base, ref)]; [None] when it raises [ValueError] *)
    urljoin : string -> string -> option string;
    (** [hashlib.md5(url.encode()).hexdigest()[:10]] *)
    url_hash : string -> string;
    (** [mimetypes.guess_extension] *)
    guess_extension : string -> option string;
    (** [mimetypes.types_map.get(Path(urlparse(url).path).suffix.lower())] *)
    suffix_type : string -> option string;
    (** the PIL block of [process_images]: the data, downsampled when the
        type is one PIL handles and a side exceeds 1600 pixels *)
    resize_image : string -> list Byte.byte -> list Byte.byte;
    (** the constant [CSS] *)
    CSS : string;
    (** [str(uuid.uuid4())] *)
    new_uuid : World -> string * World;
    (** the default title with today's date *)
    default_title : World -> string;
    (** [resolve_output_path(template, title)] *)
    resolve_output_path : World -> string -> string -> string;
    (** [send_epub_via_smtp]; [false] when it raises *)
    send_epub_via_smtp : World -> string -> MailSettings -> bool * World }.

Section Model.

Context `{Sv : Services}.

(** *** HTTP helpers *)

(** [fetch_page]: [(html_text, final_url)], [None] when it raises. *)
Definition fetch_page (w : World) (url : string) (timeout : nat)
  : option (string * string) * World :=
  match http_get w url timeout with
  | (Some r, w') =>
      if resp_ok r then (Some (resp_text r, resp_url r), w') else (None, w')
  | (None, w') => (None, w')
  end.

Definition is_semicolon (c : ascii) : bool := Ascii.eqb c ";"%char.

(** [fetch_binary]: [(data, mime_type)], [None] on any exception. *)
Definition fetch_binary (w : World) (url : string)
  : option (list Byte.byte * string) * World :=
  match http_get w url 20 with
  | (Some r, w') =>
      if resp_ok r then
        let ctype :=
          PyStr.strip
            (hd EmptyString
               (PyStr.split_on is_semicolon (default "" (resp_content_type r)))) in
        let ctype :=
          if PyStr.truthy ctype then ctype else default "image/jpeg" (suffix_type url) in
        (Some (resp_content r, ctype), w')
      else (None, w')
  | (None, w') => (None, w')
  end.

(** [x or y] on strings. *)
Definition str_or (x y : string) : string := if PyStr.truthy x then x else y.

(** [extract_article]: [(title, body_html)], [None] when readability raises. *)
Definition extract_article (html url : string) : option (string * string) :=
  match readability html with
  | Some (short_title, long_title, body) =>
      Some (PyStr.strip (str_or short_title (str_or long_title (netloc url))), body)
  | None => None
  end.

(** *** The state [clean_html] works on: the network, the items of the book
    being built and the image cache of the run *)

Record env : Type :=
  { world : World; items : list item; image_cache : gmap string string }.

(** A computation that changes the state and may raise ([None]); what it did
    to the state before raising stays done. *)
Definition M (A : Type) : Type := env -> option A * env.

Definition ret {A} (x : A) : M A := fun st => (Some x, st).

Definition bind {A B} (m : M A) (k : A -> M B) : M B :=
  fun st => match m st with
            | (Some x, st') => k x st'
            | (None, st') => (None, st')
            end.

Notation "'let*' x ':=' m 'in' k" := (bind m (fun x => k))
  (at level 10, x name, m at level 100, k at level 200).

(** The image path and the registered item of a downloaded image. *)
Definition epub_path (abs_url mime_type : string) : string :=
  "images/" ++ url_hash abs_url ++ normalise_ext (guess_extension mime_type).

Definition epub_img (abs_url mime_type : string) (data : list Byte.byte) : EpubItem :=
  {| uid := "img_" ++ url_hash abs_url;
     file_name := epub_path abs_url mime_type;
     media_type := mime_type;
     content := data |}.

(** The body of the loop of [process_images] for one image with attributes
    [a] under an element named [parent]. *)
Definition process_image (base_url parent : string) (a : list (string * string))
  : M outcome :=
  fun st =>
    let src := image_source a in
    if negb (PyStr.truthy src) then (Some Dropped, st)
    else if is_tiny a then (Some Dropped, st)
    else if PyStr.startswith "data:" src then (Some Untouched, st)
    else
      match urljoin base_url src with
      | None => (None, st)
      | Some abs_url =>
          match image_cache st !! abs_url with
          | Some path => (Some (Cached (_sanitise_attrs (Attrs.set "src" path a))), st)
          | None =>
              match fetch_binary (world st) abs_url with
              | (None, w') =>
                  (Some Dropped,
                   {| world := w'; items := items st; image_cache := image_cache st |})
              | (Some (data, mime_type), w') =>
                  let data := resize_image mime_type data in
                  let path := epub_path abs_url mime_type in
                  let a' := _sanitise_attrs (Attrs.set "src" path a) in
                  (Some (Embedded a'
                           (if wants_figure parent then InFigure (caption_of a') else Bare)),
                   {| world := w';
                      items := items st ++ [IRes (epub_img abs_url mime_type data)];
                      image_cache := <[abs_url := path]> (image_cache st) |})
              end
          end
      end.

(** [for img in soup.find_all("img"): ...] over the images in document
    order. *)
Fixpoint process_image_list (base_url : string)
  (imgs : list (string * list (string * string))) : M (list outcome) :=
  match imgs with
  | [] => ret []
  | (parent, a) :: r =>
      let* o := process_image base_url parent a in
      let* os := process_image_list base_url r in
      ret (o :: os)
  end.

(** A loop over the nodes of a list, each giving the nodes that take its
    place. *)
Definition for_nodes (f : node -> M (list node)) : list node -> M (list node) :=
  fix go (l : list node) : M (list node) :=
    match l with
    | [] => ret []
    | x :: r =>
        let* x' := f x in
        let* r' := go r in
        ret (x' ++ r')
    end.

(** [process_images] as a transformation of the tree: every image is replaced
    by what the loop leaves in its place, in document order. *)
Fixpoint process_images_node (base_url parent : string) (n : node) : M (list node) :=
  match n with
  | NElem nm a ch =>
      if String.eqb nm "img" then
        let* o := process_image base_url parent a in
        ret (outcome_nodes a ch o)
      else
        let* ch' := for_nodes (process_images_node base_url nm) ch in
        ret [NElem nm a ch']
  | _ => ret [n]
  end.

Definition process_images (base_url parent : string) (l : list node) : M (list node) :=
  for_nodes (process_images_node base_url parent) l.

(** A loop over the nodes of a list that stops at the first exception. *)
Definition try_nodes (f : node -> option node) : list node -> option (list node) :=
  fix go (l : list node) : option (list node) :=
    match l with
    | [] => Some []
    | x :: r =>
        match f x with
        | Some x' =>
            match go r with
            | Some r' => Some (x' :: r')
            | None => None
            end
        | None => None
        end
    end.

(** [for a in soup.find_all("a", href=True): a["href"] = urljoin(base_url,
    a["href"])]; [None] when [urljoin] raises. *)
Fixpoint fix_links (base_url : string) (n : node) : option node :=
  match n with
  | NElem nm a ch =>
      let a' :=
        if String.eqb nm "a" then
          match Attrs.get "href" a with
          | Some h =>
              match urljoin base_url h with
              | Some h' => Some (Attrs.set "href" h' a)
              | None => None
              end
          | None => Some a
          end
        else Some a in
      match a' with
      | None => None
      | Some a' =>
          match try_nodes (fix_links base_url) ch with
          | Some ch' => Some (NElem nm a' ch')
          | None => None
          end
      end
  | _ => Some n
  end.

Definition fix_links_forest (base_url : string) (l : list node) : option (list node) :=
  try_nodes (fix_links base_url) l.

(** The passes of [clean_html] after the image pass. *)
Definition finish_soup (soup : list node) : list node :=
  flat_map remove_empty (List.map strip_attrs_pass soup).

(** The passes of [clean_html] before the image pass. *)
Definition prepare_soup (soup : list node) : list node :=
  List.map srcset_pass (flat_map drop_unwanted (flat_map remove_comments soup)).

(** The tree [clean_html] serialises. The top-level nodes hang under the
    BeautifulSoup object, whose name is [[document]]. *)
Definition clean_soup (base_url : string) (soup : list node) : M (list node) :=
  fun st =>
    match process_images base_url "[document]" (prepare_soup soup) st with
    | (Some soup1, st') =>
        match fix_links_forest base_url soup1 with
        | Some soup2 => (Some (finish_soup soup2), st')
        | None => (None, st')
        end
    | (None, st') => (None, st')
    end.

Definition clean_html (raw_html base_url : string) : M string :=
  let* soup := clean_soup base_url (parse_html raw_html) in
  ret (match find_body_in soup with
       | Some body => decode_contents body
       | None => soup_str soup
       end).

(** *** Chapters *)

Definition dquote : string := String "034"%char EmptyString.
Definition newline : string := String "010"%char EmptyString.

Definition make_chapter_body (title url content_html : string) : string :=
  let safe_title :=
    PyStr.replace_char "034"%char "&quot;"
      (PyStr.replace_char ">"%char "&gt;" (PyStr.replace_char "<"%char "&lt;" title)) in
  let safe_url :=
    PyStr.replace_char "034"%char "&quot;" (PyStr.replace_char "&"%char "&amp;" url) in
  "<h1 class=" ++ dquote ++ "chapter-title" ++ dquote ++ ">" ++ safe_title ++ "</h1>"
    ++ newline
    ++ "<p class=" ++ dquote ++ "source-url" ++ dquote ++ ">Source: <a href=" ++ dquote
    ++ safe_url ++ dquote ++ ">" ++ safe_url ++ "</a></p>" ++ newline
    ++ "<hr class=" ++ dquote ++ "chapter-rule" ++ dquote ++ "/>" ++ newline
    ++ content_html.

(** [f"chapter_{idx:03d}.xhtml"] *)
Definition chapter_file_name (idx : nat) : string :=
  "chapter_" ++ PyStr.pad3 idx ++ ".xhtml".

Definition stylesheet_link : HeadLink :=
  {| link_href := "styles.css"; link_rel := "stylesheet"; link_type := "text/css" |}.

Definition css_item : EpubItem :=
  {| uid := "styles"; file_name := "styles.css"; media_type := "text/css";
     content := list_byte_of_string CSS |}.

Definition make_chapter (idx : nat) (article_title final_url clean : string) : EpubHtml :=
  {| html_title := article_title;
     html_file_name := chapter_file_name idx;
     html_lang := "en";
     html_content := make_chapter_body article_title final_url clean;
     html_links := [stylesheet_link] |}.

(** *** The loop of [build_epub] *)

(** What the loop reports for one URL (its progress messages). *)
Inductive report : Type :=
| FetchFailed                                 (* [error] fetch failed *)
| ExtractionFailed                            (* [error] extraction failed *)
| Processed (article_title final_url raw_content : string) (clean : option string).
    (* OK; [clean = None]: [error] cleaning failed *)

Record attempt : Type :=
  { at_idx : nat; at_url : string; at_report : report }.

Record loop_state : Type :=
  { ls_env : env; ls_chapters : list EpubHtml; ls_log : list attempt }.

Definition with_world (st : env) (w : World) : env :=
  {| world := w; items := items st; image_cache := image_cache st |}.

Definition add_item (st : env) (i : item) : env :=
  {| world := world st; items := items st ++ [i]; image_cache := image_cache st |}.

(** One turn of the loop, for the URL at position [idx] (counted from 1
    over all the input URLs). *)
Definition attempt_url (timeout idx : nat) (url : string) (ls : loop_state) : loop_state :=
  let st := ls_env ls in
  match fetch_page (world st) url timeout with
  | (None, w) =>
      {| ls_env := with_world st w; ls_chapters := ls_chapters ls;
         ls_log := ls_log ls ++ [{| at_idx := idx; at_url := url; at_report := FetchFailed |}] |}
  | (Some (html, final_url), w) =>
      match extract_article html final_url with
      | None =>
          {| ls_env := with_world st w; ls_chapters := ls_chapters ls;
             ls_log := ls_log ls
                       ++ [{| at_idx := idx; at_url := url; at_report := ExtractionFailed |}] |}
      | Some (article_title, raw_content) =>
          let '(r, st') := clean_html raw_content final_url (with_world st w) in
          let clean := default raw_content r in
          let chap := make_chapter idx article_title final_url clean in
          {| ls_env := add_item st' (IHtml chap);
             ls_chapters := ls_chapters ls ++ [chap];
             ls_log := ls_log ls
                       ++ [{| at_idx := idx; at_url := url;
                              at_report := Processed article_title final_url raw_content r |}] |}
      end
  end.

(** [for idx, url in enumerate(urls, start=idx): ...] *)
Fixpoint for_urls (timeout idx : nat) (urls : list string) (ls : loop_state) : loop_state :=
  match urls with
  | [] => ls
  | url :: r => for_urls timeout (S idx) r (attempt_url timeout idx url ls)
  end.

(** What a call of [build_epub] leaves behind. *)
Record build : Type :=
  { build_count : nat;                          (* the value returned *)
    build_written : option (string * EpubBook); (* [epub.write_epub(output_path, book)] *)
    build_chapters : list EpubHtml;
    build_log : list attempt;
    build_world : World }.

Definition toc_entry (c : EpubHtml) : TocLink :=
  {| toc_href := html_file_name c; toc_title := html_title c; toc_uid := html_file_name c |}.

Definition build_epub (urls : list string) (output_path title author : string)
  (timeout : nat) (w : World) : build :=
  let '(identifier, w) := new_uuid w in
  let init :=
    {| ls_env := {| world := w; items := [IRes css_item]; image_cache := ∅ |};
       ls_chapters := []; ls_log := [] |} in
  let ls := for_urls timeout 1 urls init in
  let chapters := ls_chapters ls in
  match chapters with
  | [] =>
      {| build_count := 0; build_written := None; build_chapters := chapters;
         build_log := ls_log ls; build_world := world (ls_env ls) |}
  | _ :: _ =>
      let book :=
        {| book_identifier := identifier; book_title := title; book_language := "en";
           book_authors := [author];
           book_items := items (ls_env ls) ++ [INcx; INav];
           book_toc := List.map toc_entry chapters;
           book_spine := SpineNav :: List.map SpineChapter chapters |} in
      {| build_count := length chapters; build_written := Some (output_path, book);
         build_chapters := chapters; build_log := ls_log ls;
         build_world := world (ls_env ls) |}
  end.

(** *** The input file and the state file ([auto.py]) *)

(** A line of [read_urls] counts when, stripped, it is neither empty nor a
    comment. *)
Definition is_entry (line : string) : bool :=
  PyStr.truthy line && negb (PyStr.startswith "#" line).

(** [read_urls], on the lines of the file. *)
Definition read_urls (lines : list string) : list string :=
  List.filter is_entry (List.map PyStr.strip lines).

(** [load_sent_urls]; [None] is a state file that does not exist. *)
Definition load_sent_urls (state_file : option (list string)) : gset string :=
  match state_file with
  | None => ∅
  | Some lines => list_to_set (List.filter is_entry (List.map PyStr.strip lines))
  end.

Definition str_le (a b : string) : Prop := String.leb a b = true.

#[global] Instance str_le_dec (a b : string) : Decision (str_le a b) :=
  decide (String.leb a b = true).

(** [save_sent_urls]: the lines written, [sorted(sent_urls)]. *)
Definition save_sent_urls (sent_urls : gset string) : list string :=
  merge_sort str_le (elements sent_urls).

Inductive message : Type :=
| MsgNoUrls                 (* [error] no URLs found; skipping. *)
| MsgNoNewUrls              (* [skip] no new URLs to export. *)
| MsgIncremental (new total : nat)
| MsgBuild (path : string)
| MsgSend (to : string)
| MsgDone (path : string)
| MsgStateUpdated (tracked : nat)
| MsgPartialBuild.          (* [warn] partial build detected; state file not updated *)

Inductive returned : Type :=
| Returns (v : option nat)
| Raises.

Record delivery : Type :=
  { dl_returned : returned;
    dl_state_file : option (list string);
    dl_messages : list message;
    dl_requested : nat;            (* [len(new_urls)], 0 before it is known *)
    dl_built : option nat;         (* the value of [built], once computed *)
    dl_world : World }.

Definition build_and_send (urls_file : list string) (state_file : option (list string))
  (output_template title author : string) (timeout : nat) (mail : MailSettings)
  (w : World) : delivery :=
  let urls := read_urls urls_file in
  match urls with
  | [] =>
      {| dl_returned := Returns None; dl_state_file := state_file;
         dl_messages := [MsgNoUrls]; dl_requested := 0; dl_built := None; dl_world := w |}
  | _ :: _ =>
      let sent_urls := load_sent_urls state_file in
      let new_urls := List.filter (fun url => negb (bool_decide (url ∈ sent_urls))) urls in
      match new_urls with
      | [] =>
          {| dl_returned := Returns None; dl_state_file := state_file;
             dl_messages := [MsgNoNewUrls]; dl_requested := 0; dl_built := None;
             dl_world := w |}
      | _ :: _ =>
          let final_title := if PyStr.truthy title then title else default_title w in
          let output_path := resolve_output_path w output_template final_title in
          let msgs := [MsgIncremental (length new_urls) (length urls); MsgBuild output_path] in
          let b := build_epub new_urls output_path final_title author timeout w in
          let built := build_count b in
          match built with
          | O =>
              {| dl_returned := Returns (Some 0); dl_state_file := state_file;
                 dl_messages := msgs; dl_requested := length new_urls;
                 dl_built := Some built; dl_world := build_world b |}
          | S _ =>
              match send_epub_via_smtp (build_world b) output_path mail with
              | (false, w') =>
                  {| dl_returned := Raises; dl_state_file := state_file;
                     dl_messages := msgs ++ [MsgSend (kindle_email mail)];
                     dl_requested := length new_urls; dl_built := Some built;
                     dl_world := w' |}
              | (true, w') =>
                  let msgs := msgs ++ [MsgSend (kindle_email mail); MsgDone output_path] in
                  if Nat.eqb built (length new_urls) then
                    let sent_urls := sent_urls ∪ list_to_set new_urls in
                    {| dl_returned := Returns (Some built);
                       dl_state_file := Some (save_sent_urls sent_urls);
                       dl_messages := msgs ++ [MsgStateUpdated (size sent_urls)];
                       dl_requested := length new_urls; dl_built := Some built;
                       dl_world := w' |}
                  else
                    {| dl_returned := Returns (Some built); dl_state_file := state_file;
                       dl_messages := msgs ++ [MsgPartialBuild];
                       dl_requested := length new_urls; dl_built := Some built;
                       dl_world := w' |}
              end
          end
      end
  end.

End Model.

(** ** The notions the properties are stated with

    Among them, some properties worded as the specification has them; each
    is compared below with what the code does. *)

(** "sequenceIndex is the 1-based position among successfully processed
    URLs": the k-th chapter is named after k. *)
Definition numbered_among_successes (chapters : list EpubHtml) : Prop :=
  List.map html_file_name chapters
  = List.map chapter_file_name (seq 1 (length chapters)).

(** The attempt gave a chapter: fetch and extraction both succeeded. *)
Definition is_processed (a : attempt) : bool :=
  match at_report a with Processed _ _ _ _ => true | _ => false end.

(** The positions (in the input list) of the URLs that gave a chapter. *)
Definition success_positions (log : list attempt) : list nat :=
  List.map at_idx (List.filter is_processed log).

(** The chapter an attempt of the log stands for. *)
Definition chapter_of (a : attempt) : list EpubHtml :=
  match at_report a with
  | Processed t u raw clean => [make_chapter (at_idx a) t u (default raw clean)]
  | _ => []
  end.



(** The absolute URL an image resolves to, when the loop of [process_images]
    gets as far as resolving it. *)
Definition resolves `{Sv : Services} (base_url : string) (a : list (string * string))
  : option string :=
  let src := image_source a in
  if negb (PyStr.truthy src) || is_tiny a || PyStr.startswith "data:" src then None
  else urljoin base_url src.

(** The internal path an outcome left in [src]. *)
Definition rewritten_to (o : outcome) : option string :=
  match o with
  | Cached a | Embedded a _ => Attrs.get "src" a
  | _ => None
  end.

Definition is_embedded (o : outcome) : bool :=
  match o with Embedded _ _ => true | _ => false end.

Definition is_wrapped (o : outcome) : bool :=
  match o with Embedded _ (InFigure _) => true | _ => false end.

(** "For any two image references resolving to the same absolute URL within
    one run, exactly one binary resource is embedded and both references
    point to the same internal path", for a run over two references. *)
Definition dedup_as_specified `{Sv : Services} (base_url : string)
  (a b : string * list (string * string)) (st : env) : Prop :=
  forall u,
    resolves base_url (snd a) = Some u -> resolves base_url (snd b) = Some u ->
    exists oa ob st' p,
      process_image_list base_url [a; b] st = (Some [oa; ob], st')
      /\ rewritten_to oa = Some p /\ rewritten_to ob = Some p
      /\ length (items st') = S (length (items st)).

(** "no element in the cleaned output carries an attribute outside that
    allow-list", images apart. *)
Fixpoint only_allowed_attrs (n : node) : bool :=
  match n with
  | NElem nm a ch =>
      (String.eqb nm "img" || forallb (fun kv => mem (fst kv) keep_attrs) a)
      && forallb only_allowed_attrs ch
  | _ => true
  end.

(** What the attribute loop of [clean_html] achieves: no element other than
    an image carries an attribute of [_UNWANTED_ATTRS]. *)
Fixpoint no_unwanted_attrs (n : node) : bool :=
  match n with
  | NElem nm a ch =>
      (String.eqb nm "img" || forallb (fun kv => negb (mem (fst kv) _UNWANTED_ATTRS)) a)
      && forallb no_unwanted_attrs ch
  | _ => true
  end.

(** The state file was written by this call (it says so). *)
Definition advanced `{Sv : Services} (d : delivery) : bool :=
  existsb (fun m => match m with MsgStateUpdated _ => true | _ => false end)
    (dl_messages d).

(** "state is advanced if and only if the success count equals the requested
    count" *)
Definition state_rule_as_specified `{Sv : Services} (d : delivery) : Prop :=
  advanced d = true <-> dl_built d = Some (dl_requested d).

(** "only the first occurrence of an absolute URL can receive the
    figure/caption wrapping": a wrapped image has no earlier image of the run
    resolving to its URL. *)
Definition wrapping_first_only `{Sv : Services} (base_url : string)
  (imgs : list (string * list (string * string))) (outs : list outcome) : Prop :=
  forall i j x y u,
    (i < j)%nat -> imgs !! i = Some x -> imgs !! j = Some y ->
    resolves base_url (snd x) = Some u -> resolves base_url (snd y) = Some u ->
    (is_wrapped <$> outs !! j) <> Some true.

(** A parsed fragment: the nodes [l] in a body. *)
Definition body_with (l : list node) : list node :=
  [NElem "html" [] [NElem "body" [] l]].

(** "passes through the whole cleaning pipeline completely unchanged", for an
    image directly in the body. *)
Definition data_image_unchanged `{Sv : Services} (base_url : string)
  (a : list (string * string)) (st : env) : Prop :=
  clean_soup base_url (body_with [NElem "img" a []]) st
  = (Some (body_with [NElem "img" a []]), st).

(** [x] is [n] or lies below it, under elements that are neither images nor
    of an unwanted kind. *)
Inductive reachable (x : node) : node -> Prop :=
| reachable_here : reachable x x
| reachable_below nm a ch c :
    mem nm _UNWANTED_TAGS = false -> String.eqb nm "img" = false ->
    In c ch -> reachable x c -> reachable x (NElem nm a ch).

Definition reachable_in (x : node) (l : list node) : Prop :=
  exists n, In n l /\ reachable x n.

(** What one turn of the loop of [process_images] does, by the branch taken:
    the image is set aside before its URL is resolved (or [urljoin] raises),
    or its URL is in the cache, or the download fails, or the download
    succeeds and the image is registered. *)
Inductive image_step `{Sv : Services} (base_url parent : string)
  (a : list (string * string)) (st : env) : option outcome -> env -> Prop :=
| step_aside r :
    resolves base_url a = None ->
    r = None \/ r = Some Dropped \/ r = Some Untouched ->
    image_step base_url parent a st r st
| step_hit u path :
    resolves base_url a = Some u ->
    image_cache st !! u = Some path ->
    image_step base_url parent a st
      (Some (Cached (_sanitise_attrs (Attrs.set "src" path a)))) st
| step_failed u w' :
    resolves base_url a = Some u ->
    image_cache st !! u = None ->
    fetch_binary (world st) u = (None, w') ->
    image_step base_url parent a st (Some Dropped) (with_world st w')
| step_embedded u data mime_type w' :
    resolves base_url a = Some u ->
    image_cache st !! u = None ->
    fetch_binary (world st) u = (Some (data, mime_type), w') ->
    image_step base_url parent a st
      (Some (Embedded (_sanitise_attrs (Attrs.set "src" (epub_path u mime_type) a))
               (if wants_figure parent
                then InFigure
                       (caption_of
                          (_sanitise_attrs (Attrs.set "src" (epub_path u mime_type) a)))
                else Bare)))
      {| world := w';
         items := items st ++ [IRes (epub_img u mime_type (resize_image mime_type data))];
         image_cache := <[u := epub_path u mime_type]> (image_cache st) |}.

(** The image at position [k] of a run resolves to [u] and registers a
    resource for it. *)
Definition registers `{Sv : Services} (base_url : string)
  (imgs : list (string * list (string * string))) (outs : list outcome)
  (u : string) (k : nat) : Prop :=
  exists x, imgs !! k = Some x /\ resolves base_url (snd x) = Some u
            /\ (is_embedded <$> outs !! k) = Some true.

Definition count_embedded (outs : list outcome) : nat :=
  length (List.filter is_embedded outs).

(** The stylesheet item is the one filed as [styles.css]. *)
Definition is_stylesheet (i : item) : bool :=
  match i with
  | IRes r => String.eqb (file_name r) "styles.css"
  | _ => false
  end.

(** The chapters among the items of a book, in the order of the items. *)
Definition chapters_in (l : list item) : list EpubHtml :=
  flat_map (fun i => match i with IHtml c => [c] | _ => [] end) l.

(** The items [st'] has more than [st] are images. *)
Definition adds_images `{Sv : Services} (st st' : env) : Prop :=
  exists new,
    items st' = items st ++ new
    /\ Forall (fun i => exists u m d, i = IRes (epub_img u m d)) new.

(** The computation raised. *)
Definition raised {A} `{Sv : Services} (r : option A * env) : bool :=
  match fst r with None => true | Some _ => false end.

(** Every character of [s] passes [p]. *)
Fixpoint all_chars (p : ascii -> bool) (s : string) : bool :=
  match s with
  | EmptyString => true
  | String c r => p c && all_chars p r
  end.





(** ** More of the code, and the notions its properties are stated with *)

(** The elements of a tree in document order, each with its name and its
    attributes: [tag.find_all(True)], the tag itself first. *)
Fixpoint find_all_tags (n : node) : list (string * list (string * string)) :=
  match n with
  | NElem nm a ch => (nm, a) :: flat_map find_all_tags ch
  | _ => []
  end.

(** The comments of a tree: [find_all(string=lambda t: isinstance(t,
    Comment))]. *)
Fixpoint find_all_comments (n : node) : list string :=
  match n with
  | NComment s => [s]
  | NText _ => []
  | NElem _ _ ch => flat_map find_all_comments ch
  end.



(** The escaping [make_chapter_body] applies to the title and to the URL. *)
Definition escape_title (title : string) : string :=
  PyStr.replace_char "034"%char "&quot;"
    (PyStr.replace_char ">"%char "&gt;" (PyStr.replace_char "<"%char "&lt;" title)).

Definition escape_url (url : string) : string :=
  PyStr.replace_char "034"%char "&quot;" (PyStr.replace_char "&"%char "&amp;" url).

(** The characters that would open or close a tag or an attribute value. *)
Definition plain_char (c : ascii) : bool :=
  negb (Ascii.eqb c "<"%char) && negb (Ascii.eqb c ">"%char) && negb (Ascii.eqb c "034"%char).

(** The images registered among the items of a book. *)
Definition image_items (l : list item) : list EpubItem :=
  flat_map
    (fun i => match i with
              | IRes r => if String.eqb (file_name r) "styles.css" then [] else [r]
              | _ => []
              end) l.

(** The cache and the book agree: a cached URL maps to the path made of its
    hash and an extension, under which an item was registered for it; and
    there are as many image items as cached URLs. *)
Definition cache_in_step `{Sv : Services} (st : env) : Prop :=
  (forall u path,
      image_cache st !! u = Some path ->
      exists mime_type data,
        path = epub_path u mime_type /\ In (IRes (epub_img u mime_type data)) (items st))
  /\ length (image_items (items st)) = size (image_cache st).

(** The state [build_epub] starts its loop in. *)
Definition initial_loop_state `{Sv : Services} (w : World) : loop_state :=
  {| ls_env := {| world := w; items := [IRes css_item]; image_cache := ∅ |};
     ls_chapters := []; ls_log := [] |}.

(** Nothing was taken from the book or from the cache between [st] and
    [st']. *)
Definition grown `{Sv : Services} (st st' : env) : Prop :=
  (exists new, items st' = items st ++ new)
  /\ forall u path, image_cache st !! u = Some path -> image_cache st' !! u = Some path.

(** Reading a chapter number back from its zero-padded form. *)
Definition read_decimal (s : string) : option nat :=
  option_map Nat.of_uint (NilEmpty.uint_of_string s).

(** What [fix_links] does to one dictionary: nothing, or the [href] of an
    [a] is replaced by what [urljoin] made of it. *)
Definition link_fixed `{Sv : Services} (base_url nm : string) (a a' : list (string * string)) : Prop :=
  (a' = a /\ (nm = "a" -> Attrs.get "href" a = None))
  \/ (nm = "a"
      /\ exists h h', Attrs.get "href" a = Some h /\ urljoin base_url h = Some h'
                      /\ a' = Attrs.set "href" h' a).

(** What the image loop leaves of one dictionary: it is as it was, or that of
    an image rewritten to an internal path. *)
Definition image_processed (nm : string) (a a' : list (string * string)) : Prop :=
  a' = a \/ (nm = "img" /\ exists p, a' = _sanitise_attrs (Attrs.set "src" p a)).

(** *** [slugify] ([auto.py]) *)










(** ** The watch loop of [main] (auto.py)

    The loop polls the URL file, compares its hash with the last one seen and
    calls [build_and_send] on a change. A run is described by what the
    successive turns of the loop find on disk; the run ends with the
    interruption of the program, after the last turn listed, or earlier when
    [file_hash] raises. Between two turns the state file is as the loop left
    it. *)

(** The command-line arguments [build_and_send] receives. *)
Record Args : Type :=
  { arg_output_template : string;
    arg_title : string;
    arg_author : string;
    arg_timeout : nat;
    arg_mail : MailSettings }.

(** One turn: the URL file as [file_hash] finds it and as [read_urls] finds
    it a moment later; [None] is a file that cannot be read. *)
Record poll : Type :=
  { hashed : option (list string);
    reread : option (list string) }.

Inductive event `{Sv : Services} : Type :=
| Delivered (d : delivery)    (* [change] detected, and what [build_and_send] did *)
| Unreadable.                 (* [change] detected, [read_urls] raised: build/send failed *)

Record watcher `{Sv : Services} : Type :=
  { last_hash : string;
    wt_state_file : option (list string);
    wt_world : World;
    wt_events : list event }.

Inductive ending : Type :=
| Stopped                     (* KeyboardInterrupt *)
| Crashed.                    (* [file_hash] raised inside the loop *)

Section Watch.

Context `{Sv : Services}.

(** [hashlib.sha256(data).hexdigest()] *)
Variable sha256 : list string -> string.

Variable args : Args.

Definition file_hash (file : option (list string)) : option string :=
  match file with
  | Some data => Some (sha256 data)
  | None => None
  end.

(** The body of the loop once a change is detected: [last_hash] is set
    before the [try], and every exception of [build_and_send] is caught. *)
Definition on_change (current_hash : string) (file : option (list string)) (s : watcher)
  : watcher :=
  match file with
  | None =>
      {| last_hash := current_hash; wt_state_file := wt_state_file s;
         wt_world := wt_world s; wt_events := wt_events s ++ [Unreadable] |}
  | Some lines =>
      let d :=
        build_and_send lines (wt_state_file s) (arg_output_template args) (arg_title args)
          (arg_author args) (arg_timeout args) (arg_mail args) (wt_world s) in
      {| last_hash := current_hash; wt_state_file := dl_state_file d;
         wt_world := dl_world d; wt_events := wt_events s ++ [Delivered d] |}
  end.

Fixpoint watch (polls : list poll) (s : watcher) : watcher * ending :=
  match polls with
  | [] => (s, Stopped)
  | p :: rest =>
      match file_hash (hashed p) with
      | None => (s, Crashed)
      | Some current_hash =>
          if String.eqb current_hash (last_hash s) then watch rest s
          else watch rest (on_change current_hash (reread p) s)
      end
  end.

(** [last_hash = file_hash(urls_file)] before the loop. *)
Definition start (urls_file : list string) (state_file : option (list string)) (w : World)
  : watcher :=
  {| last_hash := sha256 urls_file; wt_state_file := state_file; wt_world := w;
     wt_events := [] |}.

End Watch.

(** The deliveries among the events of a run. *)
Definition deliveries `{Sv : Services} (l : list event) : list delivery :=
  flat_map (fun e => match e with Delivered d => [d] | Unreadable => [] end) l.

(** ** A small world to run the model in

    Requests are logged in the [World]. Hosts [down.*] do not answer, hosts
    [flaky.*] fail on the first request of an address and answer from then
    on, hosts [gone.*] answer with an error status, pages of hosts [odd.*]
    defeat the extraction. The text of a page is its address, and [pages]
    gives the tree it parses to. *)

Module Demo.

Definition img (a : list (string * string)) : node := NElem "img" a [].

Definition pages : list (string * list node) :=
  [("https://a.test/x",
    body_with [img [("src", "https://a.test/i.png"); ("width", "1"); ("height", "1")]]);
   ("https://a.test/two",
    body_with [NElem "div" [("class", "hero"); ("lang", "en")]
                 [img [("src", "https://img.test/a.png"); ("alt", "A")];
                  img [("src", "https://img.test/a.png"); ("alt", "A again")]]]);
   ("https://a.test/bad-link",
    body_with [NElem "a" [("href", "http://[")] [NText "broken"]])].

Fixpoint lookup_page (raw : string) (l : list (string * list node)) : list node :=
  match l with
  | [] => body_with [NText raw]
  | (k, t) :: r => if String.eqb k raw then t else lookup_page raw r
  end.

Fixpoint render (n : node) : string :=
  match n with
  | NText s => s
  | NComment _ => "<!---->"
  | NElem nm a ch =>
      "<" ++ nm ++ String.concat "" (List.map (fun kv => (" " ++ fst kv ++ "=" ++ snd kv)%string) a)
      ++ ">" ++ String.concat "" (List.map render ch) ++ "</" ++ nm ++ ">"
  end.

Definition get (w : list string) (url : string) (timeout : nat)
  : option Response * list string :=
  let w' := w ++ [url] in
  if String.prefix "https://down." url then (None, w')
  else if String.prefix "https://flaky." url && negb (mem url w) then (None, w')
  else
    (Some {| resp_ok := negb (String.prefix "https://gone." url);
             resp_text := url; resp_url := url;
             resp_content := list_byte_of_string url;
             resp_content_type :=
               if String.prefix "https://photos." url then Some "image/jpeg"
               else Some "image/png; charset=binary" |}, w').

Definition join (base ref : string) : option string :=
  if String.eqb ref "http://[" then None
  else if String.prefix "http://" ref || String.prefix "https://" ref then Some ref
  else Some (base ++ "/" ++ ref)%string.

#[global] Instance services : Services :=
  {| World := list string;
     http_get := get;
     readability := fun html =>
       if String.prefix "https://odd." html then None
       else Some ("", ("About " ++ html)%string, html);
     netloc := fun url => url;
     parse_html := fun raw => lookup_page raw pages;
     decode_contents := fun l => String.concat "" (List.map render l);
     soup_str := fun l => String.concat "" (List.map render l);
     urljoin := join;
     url_hash := fun u => ("h" ++ PyStr.decimal (String.length u))%string;
     guess_extension := fun m =>
       if String.eqb m "image/png" then Some ".png"
       else if String.eqb m "image/jpeg" then Some ".jpeg" else None;
     suffix_type := fun _ => None;
     resize_image := fun _ d => d;
     CSS := "body { margin: 0; }";
     new_uuid := fun w => ("00000000-0000-4000-8000-000000000000", w);
     default_title := fun _ => "Web Articles";
     resolve_output_path := fun _ template _ => template;
     send_epub_via_smtp := fun w path mail =>
       (negb (String.eqb (smtp_host mail) "smtp.down.test"), w ++ [("smtp:" ++ path)%string]) |}.


Definition st0 : env := {| world := []; items := [IRes css_item]; image_cache := ∅ |}.

Definition mail (host : string) : MailSettings :=
  {| kindle_email := "reader@kindle.test"; smtp_host := host; smtp_port := 587;
     smtp_user := "u"; smtp_password := "p"; sender_email := "u@mail.test";
     use_starttls := true |}.

(** Two references to one image, on a host that answers and on one that
    fails once. *)
Definition ref_to (url alt : string) : string * list (string * string) :=
  ("div", [("src", url); ("alt", alt); ("class", "wide")]).

Definition good_pair := [ref_to "https://img.test/a.png" "A"; ref_to "https://img.test/a.png" "B"].
Definition flaky_pair := [ref_to "https://flaky.test/a.png" "A"; ref_to "https://flaky.test/a.png" "B"].

Definition run (imgs : list (string * list (string * string))) : option (list outcome) * env :=
  process_image_list "https://a.test/x" imgs st0.

Definition outcomes (imgs : list (string * list (string * string))) : list outcome :=
  default [] (fst (run imgs)).

(** A run over three URLs, the second of which cannot be fetched. *)
Definition three_urls : list string :=
  ["https://a.test/two"; "https://down.test/1"; "https://a.test/x"].

Definition built : build := build_epub three_urls "out.epub" "Reading list" "PageStack" 30 [].

(** Two deliveries of one new URL: the mail host answers, or it does not. *)
Definition delivered : delivery :=
  build_and_send ["# reading list"; "https://a.test/x"; " https://a.test/two "]
    (Some ["https://a.test/x"]) "out.epub" "" "PageStack" 30 (mail "smtp.ok.test") [].

Definition undelivered : delivery :=
  build_and_send ["https://a.test/x"] None "out.epub" "" "PageStack" 30
    (mail "smtp.down.test") [].

(** A fragment with a comment, a script, an empty paragraph, a link and an
    image that has only a [srcset]. *)
Definition messy : list node :=
  body_with
    [NComment "advert";
     NElem "script" [] [NText "track()"];
     NElem "div" [("id", "main")]
       [NElem "p" [] [NText "  "];
        NElem "a" [("href", "https://b.test/about"); ("class", "ext")] [NText "about"];
        NElem "img" [("srcset", "https://img.test/s.png 1x, https://img.test/b.png 2x")] []]].

Definition cleaned (soup : list node) : list node :=
  default [] (fst (clean_soup "https://a.test/x" soup st0)).

(** A stand-in for the hash of the URL file, and the arguments of a run
    whose mail host does not answer. *)
Definition digest (lines : list string) : string := String.concat "|" lines.

Definition args_down : Args :=
  {| arg_output_template := "out.epub"; arg_title := ""; arg_author := "PageStack";
     arg_timeout := 30; arg_mail := mail "smtp.down.test" |}.

Definition edited : poll :=
  {| hashed := Some ["https://a.test/x"]; reread := Some ["https://a.test/x"] |}.

End Demo.

(** ** The model on small inputs *)

Example strip_ex : PyStr.strip "  a b  " = "a b".
Proof. reflexivity. Qed.

Example split_comma_ex : PyStr.split_comma "a 1x, b 2x," = ["a 1x"; " b 2x"; ""].
Proof. reflexivity. Qed.

Example split_ws_ex : PyStr.split_ws " b   2x " = ["b"; "2x"].
Proof. reflexivity. Qed.

Example int_ex :
  PyStr.int " 1_0 " = Some 10%Z /\ PyStr.int "" = None /\ PyStr.int "-2" = Some (-2)%Z
  /\ PyStr.int "2px" = None /\ PyStr.int "1__0" = None /\ PyStr.int "+07" = Some 7%Z.
Proof. repeat split; reflexivity. Qed.

Example pad3_ex : PyStr.pad3 7 = "007" /\ PyStr.pad3 42 = "042" /\ PyStr.pad3 1234 = "1234".
Proof. repeat split; reflexivity. Qed.

Example fix_srcset_ex :
  fix_srcset [("srcset", "a.jpg 480w, b.jpg 800w"); ("alt", "x")]
  = [("alt", "x"); ("src", "b.jpg")].
Proof. reflexivity. Qed.

(** The scenario of the specification: one URL whose article is a 1x1 image;
    the chapter is made and holds no image. *)
Example scenario_tracking_pixel :
  let b := build_epub (Sv := Demo.services) ["https://a.test/x"] "out.epub" "T" "A" 30 [] in
  build_count b = 1%nat
  /\ List.map html_content (build_chapters b)
     = [make_chapter_body "About https://a.test/x" "https://a.test/x" ""].
Proof. vm_compute. split; reflexivity. Qed.

(** ** Attribute dictionaries *)

Section AttrFacts.

Implicit Types (k v : string) (a : list (string * string)).

Lemma get_del_same k a : Attrs.get k (Attrs.del k a) = None.
Proof.
  induction a as [|[k' v'] r IH]; simpl; [reflexivity|].
  destruct (String.eqb k' k) eqn:E; simpl; [exact IH|].
  rewrite E. exact IH.
Qed.

Lemma get_filter_keep k (f : string * string -> bool) a :
  (forall v, f (k, v) = true) -> Attrs.get k (List.filter f a) = Attrs.get k a.
Proof.
  intros Hf. induction a as [|[k' v'] r IH]; simpl; [reflexivity|].
  destruct (String.eqb k' k) eqn:E.
  - apply String.eqb_eq in E. subst k'. rewrite Hf. simpl.
    rewrite String.eqb_refl. reflexivity.
  - destruct (f (k', v')); simpl; [rewrite E|]; exact IH.
Qed.

Lemma get_del_other k k' a : k <> k' -> Attrs.get k (Attrs.del k' a) = Attrs.get k a.
Proof.
  intros Hne. apply get_filter_keep. intros v. simpl.
  destruct (String.eqb k k') eqn:E; [apply String.eqb_eq in E; contradiction|reflexivity].
Qed.

Lemma get_set_same k v a : Attrs.get k (Attrs.set k v a) = Some v.
Proof.
  induction a as [|[k' v'] r IH]; simpl.
  - rewrite String.eqb_refl. reflexivity.
  - destruct (String.eqb k' k) eqn:E; simpl.
    + rewrite String.eqb_refl. reflexivity.
    + rewrite E. exact IH.
Qed.

Lemma get_sanitised_src p a :
  Attrs.get "src" (_sanitise_attrs (Attrs.set "src" p a)) = Some p.
Proof.
  unfold _sanitise_attrs. rewrite get_filter_keep; [apply get_set_same|].
  intros v. reflexivity.
Qed.

Lemma sanitised_keys a k :
  In k (Attrs.keys (_sanitise_attrs a)) -> mem k keep_attrs = true.
Proof.
  unfold Attrs.keys, _sanitise_attrs. rewrite in_map_iff.
  intros [[k' v'] [Hk Hin]]. simpl in Hk. subst k'.
  apply filter_In in Hin. exact (proj2 Hin).
Qed.

Lemma del_absent k a : Attrs.get k a = None -> Attrs.del k a = a.
Proof.
  induction a as [|[k' v'] r IH]; simpl; [reflexivity|].
  destruct (String.eqb k' k) eqn:E; [discriminate|].
  simpl. intros H. rewrite (IH H). reflexivity.
Qed.

End AttrFacts.

(** ** Splitting strings *)

Lemma rstrip_cons c r :
  PyStr.rstrip (String c r)
  = match PyStr.rstrip r with
    | EmptyString => if PyStr.is_space c then EmptyString else String c EmptyString
    | String c' r' => String c (String c' r')
    end.
Proof. reflexivity. Qed.


Lemma append_empty (t : string) : (EmptyString ++ t)%string = t.
Proof. reflexivity. Qed.

Lemma append_cons c (r t : string) : (String c r ++ t)%string = String c (r ++ t).
Proof. reflexivity. Qed.


Section Splitting.

Variable p : ascii -> bool.



End Splitting.

Lemma all_chars_impl (p q : ascii -> bool) s :
  (forall c, p c = true -> q c = true) -> all_chars p s = true -> all_chars q s = true.
Proof.
  intros Hpq. induction s as [|c r IH]; [reflexivity|].
  cbn [all_chars]. intros H. apply andb_prop in H. destruct H as [Hc Hr].
  rewrite (Hpq c Hc), (IH Hr). reflexivity.
Qed.

Lemma all_chars_app p s t :
  all_chars p (s ++ t) = all_chars p s && all_chars p t.
Proof.
  induction s as [|c r IH]; [reflexivity|].
  rewrite append_cons. cbn [all_chars]. rewrite IH, andb_assoc. reflexivity.
Qed.









(** ** The srcset pass *)

Lemma fix_srcset_without_srcset (a : list (string * string)) :
  Attrs.get "srcset" a = None -> fix_srcset a = a.
Proof.
  intros H. unfold fix_srcset, Attrs.get_default. rewrite H. simpl.
  apply del_absent. exact H.
Qed.



(** ** The tracking-pixel rule *)


Section ImageRules.

Context `{Sv : Services}.



End ImageRules.



(** ** The image cache *)

Section ImageCache.

Context `{Sv : Services}.

Implicit Types (st : env) (a b : list (string * string)) (u : string).

Lemma process_image_step base_url parent a st :
  image_step base_url parent a st
    (fst (process_image base_url parent a st)) (snd (process_image base_url parent a st)).
Proof.
  unfold process_image.
  destruct (negb (PyStr.truthy (image_source a))) eqn:E1.
  { simpl. apply step_aside; [unfold resolves; rewrite E1; reflexivity|auto]. }
  destruct (is_tiny a) eqn:E2.
  { simpl. apply step_aside; [unfold resolves; rewrite E1, E2; reflexivity|auto]. }
  destruct (PyStr.startswith "data:" (image_source a)) eqn:E3.
  { simpl. apply step_aside; [unfold resolves; rewrite E1, E2, E3; reflexivity|auto]. }
  assert (Hres : resolves base_url a = urljoin base_url (image_source a))
    by (unfold resolves; rewrite E1, E2, E3; reflexivity).
  destruct (urljoin base_url (image_source a)) as [u|] eqn:E4.
  2:{ simpl. apply step_aside; auto. }
  destruct (image_cache st !! u) as [path|] eqn:E5.
  { simpl. eapply step_hit; eauto. }
  destruct (fetch_binary (world st) u) as [[[data mime_type]|] w'] eqn:E6; simpl.
  - eapply step_embedded; eauto.
  - eapply (step_failed _ _ _ _ u w'); eauto.
Qed.

Lemma process_image_inv base_url parent a st r st' :
  process_image base_url parent a st = (r, st') -> image_step base_url parent a st r st'.
Proof.
  intros H. pose proof (process_image_step base_url parent a st) as Hs.
  rewrite H in Hs. exact Hs.
Qed.

(** A cache hit: the source is rewritten to the cached path, the attributes
    are sanitised, and the state (network, book, cache) is left as it was. *)
Lemma cache_hit base_url parent a st u path :
  resolves base_url a = Some u -> image_cache st !! u = Some path ->
  process_image base_url parent a st
  = (Some (Cached (_sanitise_attrs (Attrs.set "src" path a))), st).
Proof.
  intros Hr Hc. unfold resolves in Hr. unfold process_image.
  destruct (negb (PyStr.truthy (image_source a))); [discriminate|].
  destruct (is_tiny a); [discriminate|].
  destruct (PyStr.startswith "data:" (image_source a)); [discriminate|].
  simpl in Hr. rewrite Hr, Hc. reflexivity.
Qed.

Lemma step_cache_mono base_url parent a st r st' u path :
  process_image base_url parent a st = (r, st') ->
  image_cache st !! u = Some path -> image_cache st' !! u = Some path.
Proof.
  intros H Hc. apply process_image_inv in H.
  destruct H as [r _ _ | u' p' _ _ | u' w' _ _ _ | u' d m w' _ Hnone _]; simpl; auto.
  destruct (decide (u' = u)) as [->|Hne]; [congruence|].
  rewrite lookup_insert_ne by exact Hne. exact Hc.
Qed.

(** A key enters the cache only when an image resolving to it is embedded,
    and the path stored is made of the hash of the URL and the extension of
    the type. *)
Lemma step_cache_new base_url parent a st r st' u path :
  process_image base_url parent a st = (r, st') ->
  image_cache st !! u = None -> image_cache st' !! u = Some path ->
  resolves base_url a = Some u /\ (is_embedded <$> r) = Some true
  /\ exists mime_type, path = epub_path u mime_type.
Proof.
  intros H Hn Hs. apply process_image_inv in H.
  destruct H as [r _ _ | u' p' _ _ | u' w' _ _ _ | u' d m w' Hr Hnone _];
    simpl in *; try congruence.
  destruct (decide (u' = u)) as [->|Hne].
  - rewrite lookup_insert_eq in Hs. injection Hs as <-.
    split; [exact Hr|]. split; [reflexivity|]. exists m. reflexivity.
  - rewrite lookup_insert_ne in Hs by exact Hne. congruence.
Qed.

Lemma step_items base_url parent a st o st' :
  process_image base_url parent a st = (Some o, st') ->
  length (items st') = (length (items st) + (if is_embedded o then 1 else 0))%nat.
Proof.
  intros H. apply process_image_inv in H.
  inversion H as [r Hr Hor | u p Hr Hc | u w' Hr Hc Hf | u d m w' Hr Hc Hf]; subst; simpl.
  - destruct Hor as [Hor|[Hor|Hor]]; try discriminate; injection Hor as ->; simpl; lia.
  - lia.
  - lia.
  - rewrite length_app. simpl. lia.
Qed.

Lemma run_cons base_url x imgs st outs st' :
  process_image_list base_url (x :: imgs) st = (Some outs, st') ->
  exists o os st1,
    process_image base_url (fst x) (snd x) st = (Some o, st1)
    /\ process_image_list base_url imgs st1 = (Some os, st')
    /\ outs = o :: os.
Proof.
  destruct x as [parent a]. simpl. unfold bind.
  destruct (process_image base_url parent a st) as [[o|] st1]; [|discriminate].
  destruct (process_image_list base_url imgs st1) as [[os|] st2] eqn:E; [|discriminate].
  unfold ret. intros H. injection H as <- <-. exists o, os, st1. auto.
Qed.

Lemma run_cache_mono base_url imgs st r st' u path :
  process_image_list base_url imgs st = (r, st') ->
  image_cache st !! u = Some path -> image_cache st' !! u = Some path.
Proof.
  revert st r st'. induction imgs as [|[parent a] imgs IH]; intros st r st' H Hc.
  - simpl in H. unfold ret in H. injection H as _ <-. exact Hc.
  - simpl in H. unfold bind in H.
    destruct (process_image base_url parent a st) as [[o|] st1] eqn:E1.
    + pose proof (step_cache_mono _ _ _ _ _ _ _ _ E1 Hc) as Hc1.
      destruct (process_image_list base_url imgs st1) as [[os|] st2] eqn:E2.
      * unfold ret in H. injection H as _ <-. eapply IH; eauto.
      * injection H as _ <-. eapply IH; eauto.
    + injection H as _ <-. eapply step_cache_mono; eauto.
Qed.

(** Once a URL is in the cache, every later image resolving to it is served
    from the cache. *)
Lemma run_hit base_url imgs st outs st' u path j y :
  process_image_list base_url imgs st = (Some outs, st') ->
  image_cache st !! u = Some path ->
  imgs !! j = Some y -> resolves base_url (snd y) = Some u ->
  outs !! j = Some (Cached (_sanitise_attrs (Attrs.set "src" path (snd y)))).
Proof.
  revert st outs j. induction imgs as [|x imgs IH]; intros st outs j H Hc Hj Hr.
  - destruct j; discriminate.
  - apply run_cons in H. destruct H as (o & os & st1 & H1 & H2 & ->).
    destruct j as [|j]; simpl in Hj.
    + injection Hj as ->. rewrite (cache_hit _ _ _ _ _ _ Hr Hc) in H1.
      injection H1 as <- <-. reflexivity.
    + simpl. eapply IH; eauto. eapply step_cache_mono; eauto.
Qed.

Lemma run_items base_url imgs st outs st' :
  process_image_list base_url imgs st = (Some outs, st') ->
  length (items st') = (length (items st) + count_embedded outs)%nat.
Proof.
  revert st outs. induction imgs as [|x imgs IH]; intros st outs H.
  - simpl in H. unfold ret in H. injection H as <- <-. simpl. unfold count_embedded. simpl. lia.
  - apply run_cons in H. destruct H as (o & os & st1 & H1 & H2 & ->).
    apply step_items in H1. apply IH in H2. unfold count_embedded in *. simpl.
    destruct (is_embedded o); simpl; lia.
Qed.

(** Of two images of a run that resolve to the same URL, the earlier one is
    embedded or served from the cache with the path [p] that the later one is
    then given from the cache; unless the earlier one was dropped because its
    download failed. *)
Lemma run_same_url base_url imgs st outs st' i j x y u :
  process_image_list base_url imgs st = (Some outs, st') ->
  (i < j)%nat -> imgs !! i = Some x -> imgs !! j = Some y ->
  resolves base_url (snd x) = Some u -> resolves base_url (snd y) = Some u ->
  outs !! i = Some Dropped
  \/ exists p,
       (rewritten_to <$> outs !! i) = Some (Some p)
       /\ outs !! j = Some (Cached (_sanitise_attrs (Attrs.set "src" p (snd y))))
       /\ image_cache st' !! u = Some p.
Proof.
  revert st outs i j. induction imgs as [|z imgs IH]; intros st outs i j H Hij Hi Hj Hx Hy.
  - destruct i; discriminate.
  - apply run_cons in H. destruct H as (o & os & st1 & H1 & H2 & ->).
    destruct j as [|j]; [lia|]. simpl in Hj.
    destruct i as [|i]; simpl in Hi.
    + injection Hi as ->. simpl.
      pose proof (process_image_inv _ _ _ _ _ _ H1) as Hs.
      inversion Hs as [r Hr _ | u' p' Hr Hc | u' w' Hr _ _ | u' d m w' Hr _ _]; subst.
      * congruence.
      * assert (u' = u) by congruence. subst u'. right. exists p'.
        split; [simpl; rewrite get_sanitised_src; reflexivity|]. split.
        -- eapply run_hit; eauto.
        -- eapply run_cache_mono; eauto.
      * left. reflexivity.
      * assert (u' = u) by congruence. subst u'. right. exists (epub_path u m).
        assert (Hc : image_cache
                       {| world := w';
                          items := items st ++ [IRes (epub_img u m (resize_image m d))];
                          image_cache := <[u := epub_path u m]> (image_cache st) |} !! u
                     = Some (epub_path u m)) by (simpl; apply lookup_insert_eq).
        split; [simpl; rewrite get_sanitised_src; reflexivity|]. split.
        -- eapply run_hit; eauto.
        -- eapply run_cache_mono; eauto.
    + simpl. eapply IH; eauto. lia.
Qed.

(** A URL that is in the cache after a run and was not before was registered
    by an image of the run. *)
Lemma run_cache_new base_url imgs st outs st' u path :
  process_image_list base_url imgs st = (Some outs, st') ->
  image_cache st !! u = None -> image_cache st' !! u = Some path ->
  (exists k, registers base_url imgs outs u k)
  /\ exists mime_type, path = epub_path u mime_type.
Proof.
  revert st outs. induction imgs as [|z imgs IH]; intros st outs H Hn Hs.
  - simpl in H. unfold ret in H. injection H as <- <-. congruence.
  - apply run_cons in H. destruct H as (o & os & st1 & H1 & H2 & ->).
    destruct (image_cache st1 !! u) as [p1|] eqn:E.
    + destruct (step_cache_new _ _ _ _ _ _ _ _ H1 Hn E) as (Hr & He & mime & ->).
      pose proof (run_cache_mono _ _ _ _ _ _ _ H2 E) as Hfin.
      split; [|exists mime; congruence].
      exists 0%nat, z. simpl. auto.
    + destruct (IH _ _ H2 E Hs) as [[k (x & Hk & Hr & He)] Hp].
      split; [|exact Hp]. exists (S k), x. simpl. auto.
Qed.

Lemma registers_unique base_url imgs st outs st' u k k' :
  process_image_list base_url imgs st = (Some outs, st') ->
  registers base_url imgs outs u k -> registers base_url imgs outs u k' -> k' = k.
Proof.
  intros H (x & Hk & Hx & Ex) (y & Hk' & Hy & Ey).
  destruct (Nat.lt_total k k') as [Hlt|[->|Hlt]]; [|reflexivity|].
  - destruct (run_same_url _ _ _ _ _ _ _ _ _ _ H Hlt Hk Hk' Hx Hy) as [Hd|(p & _ & Hc & _)].
    + rewrite Hd in Ex. discriminate.
    + rewrite Hc in Ey. discriminate.
  - destruct (run_same_url _ _ _ _ _ _ _ _ _ _ H Hlt Hk' Hk Hy Hx) as [Hd|(p & _ & Hc & _)].
    + rewrite Hd in Ey. discriminate.
    + rewrite Hc in Ex. discriminate.
Qed.

End ImageCache.

(** ** Deduplication of images *)

Section Dedup.

Context `{Sv : Services}.

(** C3, as the code has it. Take two references of one run that resolve to
    the same absolute URL, the earlier of which is not dropped (its download
    did not fail). Then both are rewritten to one internal path [p]; the
    later one is served from the cache, and serving from the cache downloads
    nothing and registers nothing; the cache maps the URL to [p] at the end.
    When the URL was not in the cache before the run, exactly one reference
    of the run registers a resource for it, and [p] is [images/], the short
    hash of the URL and the normalised extension of the type. The book grows
    by one item per registering reference. *)
Theorem same_url_one_resource base_url imgs (st : env) outs st' i j x y u :
  process_image_list base_url imgs st = (Some outs, st') ->
  (i < j)%nat -> imgs !! i = Some x -> imgs !! j = Some y ->
  resolves base_url (snd x) = Some u -> resolves base_url (snd y) = Some u ->
  outs !! i <> Some Dropped ->
  exists p,
    (rewritten_to <$> outs !! i) = Some (Some p)
    /\ (rewritten_to <$> outs !! j) = Some (Some p)
    /\ outs !! j = Some (Cached (_sanitise_attrs (Attrs.set "src" p (snd y))))
    /\ (forall st2 parent, image_cache st2 !! u = Some p ->
          process_image base_url parent (snd y) st2
          = (Some (Cached (_sanitise_attrs (Attrs.set "src" p (snd y)))), st2))
    /\ image_cache st' !! u = Some p
    /\ (image_cache st !! u = None ->
          (exists mime_type,
              p = ("images/" ++ url_hash u ++ normalise_ext (guess_extension mime_type))%string)
          /\ exists k, registers base_url imgs outs u k
                       /\ forall k', registers base_url imgs outs u k' -> k' = k)
    /\ length (items st') = (length (items st) + count_embedded outs)%nat.
Proof.
  intros Hrun Hij Hi Hj Hx Hy Hnd.
  destruct (run_same_url _ _ _ _ _ _ _ _ _ _ Hrun Hij Hi Hj Hx Hy) as [Hd|(p & Hp & Hc & Hfin)];
    [contradiction|].
  exists p. split; [exact Hp|]. split.
  { rewrite Hc. simpl. rewrite get_sanitised_src. reflexivity. }
  split; [exact Hc|]. split.
  { intros st2 parent H2. eapply cache_hit; eassumption. }
  split; [exact Hfin|]. split.
  - intros Hnone.
    destruct (run_cache_new _ _ _ _ _ _ _ Hrun Hnone Hfin) as [[k Hk] Hm].
    split; [exact Hm|]. exists k. split; [exact Hk|].
    intros k' Hk'. eapply registers_unique; eauto.
  - eapply run_items; eauto.
Qed.

(** C9, as the code has it. An image whose URL is in the cache has its source
    rewritten to the cached path and its attributes sanitised, is left where
    it stands (no figure, no caption, whatever its parent and its alt text),
    and the state is untouched. In a run, an image that gets the figure
    wrapping is one that registers its resource: every earlier image
    resolving to the same URL was dropped (its download had failed), and no
    later one is wrapped. *)
Theorem cache_hit_is_not_wrapped base_url :
  (forall parent a ch (st : env) u p,
      resolves base_url a = Some u -> image_cache st !! u = Some p ->
      let a' := _sanitise_attrs (Attrs.set "src" p a) in
      process_image base_url parent a st = (Some (Cached a'), st)
      /\ outcome_nodes a ch (Cached a') = [NElem "img" a' ch]
      /\ Attrs.get "src" a' = Some p
      /\ forall k, In k (Attrs.keys a') -> mem k keep_attrs = true)
  /\ (forall imgs (st : env) outs st' i j x y u,
        process_image_list base_url imgs st = (Some outs, st') ->
        (i < j)%nat -> imgs !! i = Some x -> imgs !! j = Some y ->
        resolves base_url (snd x) = Some u -> resolves base_url (snd y) = Some u ->
        ((is_wrapped <$> outs !! j) = Some true -> outs !! i = Some Dropped)
        /\ ((is_wrapped <$> outs !! i) = Some true -> (is_wrapped <$> outs !! j) = Some false)).
Proof.
  split.
  - intros parent a ch st u p Hr Hc a'. split; [eapply cache_hit; eassumption|].
    split; [reflexivity|]. split; [apply get_sanitised_src|].
    intros k. apply sanitised_keys.
  - intros imgs st outs st' i j x y u Hrun Hij Hi Hj Hx Hy.
    destruct (run_same_url _ _ _ _ _ _ _ _ _ _ Hrun Hij Hi Hj Hx Hy) as [Hd|(p & Hp & Hc & Hfin)].
    + split; [intros _; exact Hd|]. rewrite Hd. discriminate.
    + rewrite Hc. split; [discriminate|]. reflexivity.
Qed.

End Dedup.

Lemma same_url_one_resource_witness :
  exists p,
    (rewritten_to <$> Demo.outcomes Demo.good_pair !! 0%nat) = Some (Some p)
    /\ (rewritten_to <$> Demo.outcomes Demo.good_pair !! 1%nat) = Some (Some p)
    /\ p = "images/h22.png".
Proof.
  destruct (same_url_one_resource (Sv := Demo.services) "https://a.test/x" Demo.good_pair
              Demo.st0 (Demo.outcomes Demo.good_pair) (snd (Demo.run Demo.good_pair))
              0 1 (Demo.ref_to "https://img.test/a.png" "A")
              (Demo.ref_to "https://img.test/a.png" "B") "https://img.test/a.png")
    as (p & H0 & H1 & _ & _ & Hc & _).
  - vm_compute. reflexivity.
  - lia.
  - reflexivity.
  - reflexivity.
  - vm_compute. reflexivity.
  - vm_compute. reflexivity.
  - vm_compute. discriminate.
  - exists p. split; [exact H0|]. split; [exact H1|].
    vm_compute in H0. injection H0 as <-. reflexivity.
Defined.

(** C3, as the specification words it, fails: when the host does not answer,
    two references to one URL leave no resource and no rewritten source. *)
Lemma dedup_counterexample :
  ~ dedup_as_specified (Sv := Demo.services) "https://a.test/x"
      (Demo.ref_to "https://down.test/a.png" "A") (Demo.ref_to "https://down.test/a.png" "B")
      Demo.st0.
Proof.
  intros H.
  destruct (H "https://down.test/a.png") as (oa & ob & st' & p & Hrun & Hoa & _).
  - vm_compute. reflexivity.
  - vm_compute. reflexivity.
  - assert (Hd : fst (process_image_list (Sv := Demo.services) "https://a.test/x"
                        [Demo.ref_to "https://down.test/a.png" "A";
                         Demo.ref_to "https://down.test/a.png" "B"] Demo.st0)
                 = Some [Dropped; Dropped]) by (vm_compute; reflexivity).
    rewrite Hrun in Hd. simpl in Hd. injection Hd as -> ->. discriminate.
Qed.

Lemma cache_hit_is_not_wrapped_witness :
  (is_wrapped <$> Demo.outcomes Demo.good_pair !! 0%nat) = Some true
  /\ (is_wrapped <$> Demo.outcomes Demo.good_pair !! 1%nat) = Some false.
Proof.
  split; [vm_compute; reflexivity|].
  apply (proj2 (cache_hit_is_not_wrapped (Sv := Demo.services) "https://a.test/x")
           Demo.good_pair Demo.st0 (Demo.outcomes Demo.good_pair)
           (snd (Demo.run Demo.good_pair)) 0%nat 1%nat
           (Demo.ref_to "https://img.test/a.png" "A")
           (Demo.ref_to "https://img.test/a.png" "B") "https://img.test/a.png").
  - vm_compute. reflexivity.
  - lia.
  - reflexivity.
  - reflexivity.
  - vm_compute. reflexivity.
  - vm_compute. reflexivity.
  - vm_compute. reflexivity.
Defined.

(** C9, as it is worded, fails: on a host that fails once, the first
    reference is dropped and the second one, not the first occurrence of the
    URL, gets the figure and the caption. *)
Lemma wrapping_counterexample :
  Demo.outcomes Demo.flaky_pair
  = [Dropped;
     Embedded [("src", "images/h24.png"); ("alt", "B")] (InFigure (Some "B"))]
  /\ ~ wrapping_first_only (Sv := Demo.services) "https://a.test/x" Demo.flaky_pair
        (Demo.outcomes Demo.flaky_pair).
Proof.
  split; [vm_compute; reflexivity|].
  intros H.
  apply (H 0%nat 1%nat (Demo.ref_to "https://flaky.test/a.png" "A")
           (Demo.ref_to "https://flaky.test/a.png" "B") "https://flaky.test/a.png").
  - lia.
  - reflexivity.
  - reflexivity.
  - vm_compute. reflexivity.
  - vm_compute. reflexivity.
  - vm_compute. reflexivity.
Qed.

(** ** The passes over the tree *)

Lemma node_induction (P : node -> Prop) :
  (forall s, P (NText s)) -> (forall s, P (NComment s)) ->
  (forall nm a ch, (forall c, In c ch -> P c) -> P (NElem nm a ch)) ->
  forall n, P n.
Proof.
  intros Ht Hc He. fix IH 1. intros [s|s|nm a ch].
  - apply Ht.
  - apply Hc.
  - apply He. induction ch as [|c ch IHch]; intros c' Hin.
    + destruct Hin.
    + destruct Hin as [<-|Hin]; [apply IH|apply IHch; exact Hin].
Qed.

Lemma forallb_filter_same {A} (f : A -> bool) (l : list A) :
  forallb f (List.filter f l) = true.
Proof.
  apply forallb_forall. intros x Hx. apply filter_In in Hx. exact (proj2 Hx).
Qed.

Lemma strip_attrs_pass_clean n : no_unwanted_attrs (strip_attrs_pass n) = true.
Proof.
  induction n as [s|s|nm a ch IH] using node_induction; try reflexivity.
  simpl. apply andb_true_intro. split.
  - destruct (String.eqb nm "img"); [reflexivity|]. simpl.
    unfold strip_unwanted_attrs. apply forallb_filter_same.
  - apply forallb_forall. intros c Hc. apply in_map_iff in Hc.
    destruct Hc as [c0 [<- Hc0]]. apply IH. exact Hc0.
Qed.

Lemma no_unwanted_attrs_elem nm a ch :
  no_unwanted_attrs (NElem nm a ch)
  = (String.eqb nm "img" || forallb (fun kv => negb (mem (fst kv) _UNWANTED_ATTRS)) a)
    && forallb no_unwanted_attrs ch.
Proof. reflexivity. Qed.

Lemma remove_empty_elem nm a ch :
  remove_empty (NElem nm a ch)
  = if mem nm ["p"; "div"; "span"] && negb (existsb has_text ch) && negb (existsb has_img ch)
    then []
    else [NElem nm a (flat_map remove_empty ch)].
Proof. reflexivity. Qed.

Lemma remove_empty_clean n :
  no_unwanted_attrs n = true -> forallb no_unwanted_attrs (remove_empty n) = true.
Proof.
  induction n as [s|s|nm a ch IH] using node_induction; intros H;
    [reflexivity|reflexivity|].
  rewrite no_unwanted_attrs_elem in H. apply andb_prop in H. destruct H as [Ha Hch].
  rewrite remove_empty_elem.
  destruct (mem nm ["p"; "div"; "span"] && negb (existsb has_text ch) && negb (existsb has_img ch));
    [reflexivity|].
  cbn [forallb]. rewrite no_unwanted_attrs_elem, Ha, andb_true_r. cbn [andb].
  apply forallb_forall. intros c Hc. apply in_flat_map in Hc.
  destruct Hc as [c0 [Hc0 Hc]].
  assert (H0 : no_unwanted_attrs c0 = true)
    by (exact (proj1 (forallb_forall _ _) Hch c0 Hc0)).
  exact (proj1 (forallb_forall _ _) (IH c0 Hc0 H0) c Hc).
Qed.

Lemma finish_soup_clean soup : forallb no_unwanted_attrs (finish_soup soup) = true.
Proof.
  unfold finish_soup. apply forallb_forall. intros n Hn. apply in_flat_map in Hn.
  destruct Hn as [n0 [Hn0 Hn]]. apply in_map_iff in Hn0. destruct Hn0 as [m [<- _]].
  exact (proj1 (forallb_forall _ _) (remove_empty_clean _ (strip_attrs_pass_clean m)) n Hn).
Qed.

Section Cleaning.

Context `{Sv : Services}.

Lemma clean_soup_inv base_url soup (st : env) out st' :
  clean_soup base_url soup st = (Some out, st') ->
  exists soup1 soup2,
    process_images base_url "[document]" (prepare_soup soup) st = (Some soup1, st')
    /\ fix_links_forest base_url soup1 = Some soup2
    /\ out = finish_soup soup2.
Proof.
  unfold clean_soup.
  destruct (process_images base_url "[document]" (prepare_soup soup) st) as [[soup1|] st1];
    [|discriminate].
  destruct (fix_links_forest base_url soup1) as [soup2|] eqn:E; [|discriminate].
  intros H. injection H as <- <-. exists soup1, soup2. auto.
Qed.

(** C5, as the code has it. The attribute loop of [clean_html] deletes the
    attributes listed in [_UNWANTED_ATTRS] from every element that is not an
    image, so the cleaned tree has no such attribute outside images; other
    attributes stay. The allow-list ([src], [href], [alt], [title],
    [colspan], [rowspan], [width], [height]) is applied to the images that
    were embedded or served from the cache, and only to them. *)
Theorem unwanted_attrs_removed base_url :
  (forall soup (st : env) out st',
      clean_soup base_url soup st = (Some out, st') ->
      forallb no_unwanted_attrs out = true)
  /\ (forall a k v,
        In (k, v) a -> mem k _UNWANTED_ATTRS = false -> In (k, v) (strip_unwanted_attrs a))
  /\ (forall parent a (st : env) o st' k,
        process_image base_url parent a st = (Some o, st') ->
        match o with
        | Cached a' | Embedded a' _ => In k (Attrs.keys a') -> mem k keep_attrs = true
        | Dropped | Untouched => True
        end).
Proof.
  split; [|split].
  - intros soup st out st' H. apply clean_soup_inv in H.
    destruct H as (soup1 & soup2 & _ & _ & ->). apply finish_soup_clean.
  - intros a k v Hin Hk. apply filter_In. split; [exact Hin|].
    cbn [fst]. rewrite Hk. reflexivity.
  - intros parent a st o st' k H. apply process_image_inv in H.
    inversion H as [r Hr Hor | u p Hr Hc | u w' Hr Hc Hf | u d m w' Hr Hc Hf]; subst.
    + destruct Hor as [Hor|[Hor|Hor]]; try discriminate; injection Hor as ->; exact I.
    + apply sanitised_keys.
    + exact I.
    + apply sanitised_keys.
Qed.

End Cleaning.

Lemma unwanted_attrs_removed_witness :
  forallb no_unwanted_attrs
    (body_with [NElem "p" [("lang", "en"); ("onmouseover", "x()")] [NText "hi"]]) = true.
Proof.
  apply (proj1 (unwanted_attrs_removed (Sv := Demo.services) "https://a.test/x")
           (body_with [NElem "p" [("class", "lead"); ("lang", "en"); ("onmouseover", "x()")]
                         [NText "hi"]])
           Demo.st0 _ Demo.st0).
  vm_compute. reflexivity.
Defined.

(** C5, as the specification words it, fails: [lang] and [onmouseover] are
    not on the allow-list, and a paragraph keeps them through the cleaning
    (only [class] goes). *)
Lemma allow_list_counterexample :
  clean_soup (Sv := Demo.services) "https://a.test/x"
    (body_with [NElem "p" [("class", "lead"); ("lang", "en"); ("onmouseover", "x()")]
                  [NText "hi"]])
    Demo.st0
  = (Some (body_with [NElem "p" [("lang", "en"); ("onmouseover", "x()")] [NText "hi"]]),
     Demo.st0)
  /\ forallb only_allowed_attrs
       (body_with [NElem "p" [("lang", "en"); ("onmouseover", "x()")] [NText "hi"]]) = false.
Proof.
  split.
  - vm_compute. reflexivity.
  - vm_compute. reflexivity.
Qed.

(** ** The image loop and the tree

    [process_images] walks the tree; the code loops over
    [soup.find_all("img")]. Both do the same to the state and raise on the
    same inputs. *)

Section LoopAndTree.

Context `{Sv : Services}.

Lemma process_image_list_app base_url l1 l2 (st : env) :
  process_image_list base_url (l1 ++ l2) st
  = match process_image_list base_url l1 st with
    | (Some o1, st1) =>
        match process_image_list base_url l2 st1 with
        | (Some o2, st2) => (Some (o1 ++ o2), st2)
        | (None, st2) => (None, st2)
        end
    | (None, st1) => (None, st1)
    end.
Proof.
  revert st. induction l1 as [|[parent a] l1 IH]; intros st.
  - cbn. destruct (process_image_list base_url l2 st) as [[o2|] st2]; reflexivity.
  - cbn [app process_image_list]. unfold bind.
    destruct (process_image base_url parent a st) as [[o|] st1]; [|reflexivity].
    rewrite IH.
    destruct (process_image_list base_url l1 st1) as [[o1|] st2]; [|reflexivity].
    unfold ret. cbn.
    destruct (process_image_list base_url l2 st2) as [[o2|] st3]; reflexivity.
Qed.

Lemma for_nodes_as_loop base_url nm l :
  (forall c, In c l -> forall st : env,
      snd (process_images_node base_url nm c st)
      = snd (process_image_list base_url (find_all_img nm c) st)
      /\ raised (process_images_node base_url nm c st)
         = raised (process_image_list base_url (find_all_img nm c) st)) ->
  forall st : env,
    snd (for_nodes (process_images_node base_url nm) l st)
    = snd (process_image_list base_url (flat_map (find_all_img nm) l) st)
    /\ raised (for_nodes (process_images_node base_url nm) l st)
       = raised (process_image_list base_url (flat_map (find_all_img nm) l) st).
Proof.
  induction l as [|y l IH]; intros Hl st; [split; reflexivity|].
  cbn [for_nodes flat_map]. rewrite process_image_list_app. unfold bind.
  destruct (Hl y (or_introl eq_refl) st) as [Hs Hr]. unfold raised in Hr.
  destruct (process_images_node base_url nm y st) as [[y'|] st1];
    destruct (process_image_list base_url (find_all_img nm y) st) as [[o1|] st1'];
    cbn in Hs, Hr; try discriminate; subst st1'; [|split; reflexivity].
  destruct (IH (fun c Hc => Hl c (or_intror Hc)) st1) as [Hs' Hr']. unfold raised in Hr'.
  destruct (for_nodes (process_images_node base_url nm) l st1) as [[l'|] st2];
    destruct (process_image_list base_url (flat_map (find_all_img nm) l) st1) as [[o2|] st2'];
    cbn in Hs', Hr'; try discriminate; subst st2'; split; reflexivity.
Qed.

Lemma process_images_node_as_loop base_url n :
  forall parent (st : env),
    snd (process_images_node base_url parent n st)
    = snd (process_image_list base_url (find_all_img parent n) st)
    /\ raised (process_images_node base_url parent n st)
       = raised (process_image_list base_url (find_all_img parent n) st).
Proof.
  induction n as [s|s|nm a ch IH] using node_induction; intros parent st;
    [split; reflexivity|split; reflexivity|].
  cbn [process_images_node find_all_img]. destruct (String.eqb nm "img").
  - cbn [process_image_list]. unfold bind, raised.
    destruct (process_image base_url parent a st) as [[o|] st1]; split; reflexivity.
  - destruct (for_nodes_as_loop base_url nm ch (fun c Hc => IH c Hc nm) st) as [Hs Hr].
    unfold bind, raised in *.
    destruct (for_nodes (process_images_node base_url nm) ch st) as [[ch'|] st1];
      cbn in *; auto.
Qed.

(** The image pass of [clean_html] is the loop over the images of the tree. *)
Lemma process_images_as_loop base_url parent soup (st : env) :
  snd (process_images base_url parent soup st)
  = snd (process_image_list base_url (flat_map (find_all_img parent) soup) st)
  /\ raised (process_images base_url parent soup st)
     = raised (process_image_list base_url (flat_map (find_all_img parent) soup) st).
Proof.
  unfold process_images. apply for_nodes_as_loop.
  intros c _. apply process_images_node_as_loop.
Qed.

End LoopAndTree.

(** ** Images with an inline source *)

Section DataImages.

Context `{Sv : Services}.

Variable a : list (string * string).

Let x : node := NElem "img" a [].
Let x1 : node := NElem "img" (fix_srcset a) [].

Lemma remove_comments_reach n : reachable x n -> reachable_in x (remove_comments n).
Proof.
  induction 1 as [|nm a' ch c Hu Hi Hc _ IH].
  - exists x. split; [left; reflexivity|constructor].
  - destruct IH as (c' & Hc' & Hr).
    exists (NElem nm a' (flat_map remove_comments ch)). split; [left; reflexivity|].
    eapply reachable_below; eauto. apply in_flat_map. exists c. auto.
Qed.

Lemma drop_unwanted_reach n : reachable x n -> reachable_in x (drop_unwanted n).
Proof.
  induction 1 as [|nm a' ch c Hu Hi Hc _ IH].
  - exists x. split; [left; reflexivity|constructor].
  - destruct IH as (c' & Hc' & Hr). cbn [drop_unwanted]. rewrite Hu.
    exists (NElem nm a' (flat_map drop_unwanted ch)). split; [left; reflexivity|].
    eapply reachable_below; eauto. apply in_flat_map. exists c. auto.
Qed.

Lemma srcset_pass_reach n : reachable x n -> reachable x1 (srcset_pass n).
Proof.
  induction 1 as [|nm a' ch c Hu Hi Hc _ IH].
  - constructor.
  - cbn [srcset_pass]. rewrite Hi.
    eapply reachable_below; eauto. apply in_map. exact Hc.
Qed.

Lemma reachable_in_flat_map (f : node -> list node) y l :
  (forall n, reachable y n -> reachable_in y (f n)) ->
  reachable_in y l -> reachable_in y (flat_map f l).
Proof.
  intros Hf (n & Hn & Hr). destruct (Hf n Hr) as (n' & Hn' & Hr').
  exists n'. split; [|exact Hr']. apply in_flat_map. exists n. auto.
Qed.

Lemma prepare_soup_reach soup : reachable_in x soup -> reachable_in x1 (prepare_soup soup).
Proof.
  intros H. unfold prepare_soup.
  apply (reachable_in_flat_map _ _ _ remove_comments_reach) in H.
  apply (reachable_in_flat_map _ _ _ drop_unwanted_reach) in H.
  destruct H as (n & Hn & Hr). exists (srcset_pass n).
  split; [apply in_map; exact Hn|apply srcset_pass_reach; exact Hr].
Qed.

Hypothesis inline : PyStr.startswith "data:" (image_source (fix_srcset a)) = true.
Hypothesis not_tiny : is_tiny (fix_srcset a) = false.

(** The loop of [process_images] leaves the image as it is: nothing is
    downloaded, nothing is registered, the cache is not touched. *)
Lemma data_image_untouched base_url parent (st : env) :
  process_image base_url parent (fix_srcset a) st = (Some Untouched, st).
Proof.
  unfold process_image. rewrite not_tiny, inline.
  destruct (image_source (fix_srcset a)); [discriminate inline|reflexivity].
Qed.

Lemma for_nodes_reach (f : node -> M (list node)) c l (st : env) out st' :
  In c l ->
  (forall st out st', f c st = (Some out, st') -> reachable_in x1 out) ->
  for_nodes f l st = (Some out, st') -> reachable_in x1 out.
Proof.
  intros Hin Hc. revert st out. induction l as [|y r IH]; intros st out H; [destruct Hin|].
  cbn [for_nodes] in H. unfold bind in H.
  destruct (f y st) as [[y'|] st1] eqn:E1; [|discriminate].
  destruct (for_nodes f r st1) as [[r'|] st2] eqn:E2; [|discriminate].
  unfold ret in H. injection H as <- <-.
  destruct Hin as [->|Hin].
  - destruct (Hc _ _ _ E1) as (n & Hn & Hr). exists n. split; [|exact Hr].
    apply in_or_app. left. exact Hn.
  - destruct (IH Hin _ _ E2) as (n & Hn & Hr). exists n. split; [|exact Hr].
    apply in_or_app. right. exact Hn.
Qed.

Lemma process_images_node_reach base_url n :
  reachable x1 n ->
  forall parent (st : env) out st',
    process_images_node base_url parent n st = (Some out, st') -> reachable_in x1 out.
Proof.
  induction 1 as [|nm a' ch c Hu Hi Hc _ IH]; intros parent st out st' H.
  - cbn [process_images_node x1] in H. cbn [String.eqb Ascii.eqb Bool.eqb] in H.
    unfold bind in H. rewrite data_image_untouched in H.
    unfold ret in H. injection H as <- <-.
    exists x1. split; [left; reflexivity|constructor].
  - cbn [process_images_node] in H. rewrite Hi in H. unfold bind in H.
    destruct (for_nodes (process_images_node base_url nm) ch st) as [[ch'|] st1] eqn:E;
      [|discriminate].
    unfold ret in H. injection H as <- <-.
    destruct (for_nodes_reach _ c ch st ch' st1 Hc (IH nm) E) as (c' & Hc' & Hr).
    exists (NElem nm a' ch'). split; [left; reflexivity|].
    eapply reachable_below; eauto.
Qed.

Lemma process_images_reach base_url parent soup (st : env) out st' :
  reachable_in x1 soup ->
  process_images base_url parent soup st = (Some out, st') -> reachable_in x1 out.
Proof.
  intros (n & Hn & Hr) H. unfold process_images in H.
  eapply for_nodes_reach; [exact Hn| |exact H].
  intros st0 out0 st0'. apply process_images_node_reach. exact Hr.
Qed.

Lemma try_nodes_in (f : node -> option node) c l l' :
  In c l -> try_nodes f l = Some l' -> exists c', f c = Some c' /\ In c' l'.
Proof.
  revert l'. induction l as [|y r IH]; intros l' Hin H; [destruct Hin|].
  cbn [try_nodes] in H.
  destruct (f y) as [y'|] eqn:E1; [|discriminate].
  destruct (try_nodes f r) as [r'|] eqn:E2; [|discriminate].
  injection H as <-. destruct Hin as [->|Hin].
  - exists y'. split; [exact E1|left; reflexivity].
  - destruct (IH _ Hin eq_refl) as (c' & Hf & Hc'). exists c'. split; [exact Hf|right; exact Hc'].
Qed.

Lemma fix_links_reach base_url n :
  reachable x1 n -> forall n', fix_links base_url n = Some n' -> reachable x1 n'.
Proof.
  induction 1 as [|nm a' ch c Hu Hi Hc _ IH]; intros n' H.
  - cbn in H. injection H as <-. constructor.
  - cbn [fix_links] in H.
    destruct (if String.eqb nm "a" then _ else _) as [a''|]; [|discriminate].
    destruct (try_nodes (fix_links base_url) ch) as [ch'|] eqn:E; [|discriminate].
    injection H as <-.
    destruct (try_nodes_in _ c ch ch' Hc E) as (c' & Hf & Hc').
    eapply reachable_below; eauto.
Qed.

Lemma strip_attrs_pass_reach n : reachable x1 n -> reachable x1 (strip_attrs_pass n).
Proof.
  induction 1 as [|nm a' ch c Hu Hi Hc _ IH].
  - constructor.
  - cbn [strip_attrs_pass]. rewrite Hi.
    eapply reachable_below; eauto. apply in_map. exact Hc.
Qed.

Lemma reachable_has_img n : reachable x1 n -> has_img n = true.
Proof.
  induction 1 as [|nm a' ch c Hu Hi Hc _ IH]; [reflexivity|].
  cbn [has_img]. apply orb_true_intro. right.
  apply existsb_exists. exists c. auto.
Qed.

Lemma remove_empty_reach n : reachable x1 n -> reachable_in x1 (remove_empty n).
Proof.
  induction 1 as [|nm a' ch c Hu Hi Hc Hr IH].
  - exists x1. split; [left; reflexivity|constructor].
  - rewrite remove_empty_elem.
    assert (Himg : existsb has_img ch = true)
      by (apply existsb_exists; exists c; split; [exact Hc|apply reachable_has_img; exact Hr]).
    rewrite Himg. cbn [negb]. rewrite andb_false_r.
    destruct IH as (c' & Hc' & Hr').
    exists (NElem nm a' (flat_map remove_empty ch)). split; [left; reflexivity|].
    eapply reachable_below; eauto. apply in_flat_map. exists c. auto.
Qed.

Lemma clean_soup_reach base_url soup (st : env) out st' :
  reachable_in x soup ->
  clean_soup base_url soup st = (Some out, st') -> reachable_in x1 out.
Proof.
  intros Hx H. apply clean_soup_inv in H.
  destruct H as (soup1 & soup2 & H1 & H2 & ->).
  apply prepare_soup_reach in Hx.
  pose proof (process_images_reach _ _ _ _ _ _ Hx H1) as (n & Hn & Hr).
  unfold fix_links_forest in H2.
  destruct (try_nodes_in _ n soup1 soup2 Hn H2) as (n' & Hf & Hn').
  pose proof (fix_links_reach _ _ Hr _ Hf) as Hr'.
  unfold finish_soup. apply reachable_in_flat_map; [apply remove_empty_reach|].
  exists (strip_attrs_pass n'). split; [apply in_map; exact Hn'|].
  apply strip_attrs_pass_reach. exact Hr'.
Qed.

End DataImages.

(** C10, as the code has it. Let [a1] be the attributes of an image after the
    srcset pass (the [srcset] attribute deleted, [src] set from it when [src]
    was missing). If the source of the image is then an inline [data:] URI
    and the tracking-pixel rule does not fire, the image loop leaves the
    image as it is (nothing downloaded, nothing registered, no figure), and
    wherever the image stood in the tree (not below an element of an
    unwanted kind), the cleaned tree holds it with exactly the attributes
    [a1]: the attribute loop and the empty-block loop do not touch it. When
    the image had no [srcset], [a1] is [a] and the image is unchanged. *)
Theorem data_image_kept `{Sv : Services} base_url (a : list (string * string)) :
  PyStr.startswith "data:" (image_source (fix_srcset a)) = true ->
  is_tiny (fix_srcset a) = false ->
  (forall parent (st : env),
      process_image base_url parent (fix_srcset a) st = (Some Untouched, st))
  /\ (forall ch, outcome_nodes (fix_srcset a) ch Untouched = [NElem "img" (fix_srcset a) ch])
  /\ (Attrs.get "srcset" a = None -> fix_srcset a = a)
  /\ (forall soup (st : env) out st',
        reachable_in (NElem "img" a []) soup ->
        clean_soup base_url soup st = (Some out, st') ->
        reachable_in (NElem "img" (fix_srcset a) []) out).
Proof.
  intros Hdata Htiny. split.
  { intros parent st. apply data_image_untouched; assumption. }
  split; [reflexivity|]. split; [apply fix_srcset_without_srcset|].
  intros soup st out st'. apply clean_soup_reach; assumption.
Qed.

Lemma data_image_kept_witness :
  let a := [("src", "data:image/gif;base64,R0lGOD"); ("class", "logo"); ("id", "top")] in
  fix_srcset a = a
  /\ process_image (Sv := Demo.services) "https://a.test/x" "div" a Demo.st0
     = (Some Untouched, Demo.st0)
  /\ reachable_in (NElem "img" (fix_srcset a) [])
       (body_with [NElem "div" [] [NText "logo"; NElem "img" a []]]).
Proof.
  intros a.
  destruct (data_image_kept (Sv := Demo.services) "https://a.test/x" a)
    as (Hstep & _ & Hsame & Htree).
  - vm_compute. reflexivity.
  - vm_compute. reflexivity.
  - split; [apply Hsame; reflexivity|]. split.
    + rewrite <- (Hsame eq_refl) at 1. apply Hstep.
    + apply (Htree (body_with [NElem "div" [("class", "brand")]
                                [NText "logo"; NElem "img" a []]])
               Demo.st0 _ Demo.st0).
      * eexists. split; [left; reflexivity|].
        eapply reachable_below; [reflexivity|reflexivity|left; reflexivity|].
        eapply reachable_below; [reflexivity|reflexivity|left; reflexivity|].
        eapply reachable_below; [reflexivity|reflexivity|right; left; reflexivity|].
        constructor.
      * vm_compute. reflexivity.
Defined.

(** C10, as it is worded, fails twice: an inline image loses its [srcset]
    attribute in the srcset pass, and an inline image one pixel wide and high
    is dropped by the tracking-pixel rule, which comes before the test for
    inline sources. *)
Lemma data_image_counterexample :
  let a := [("src", "data:image/gif;base64,R0lGOD"); ("srcset", "big.png 2x")] in
  let b := [("src", "data:image/gif;base64,R0lGOD"); ("width", "1"); ("height", "1")] in
  PyStr.startswith "data:" (image_source a) = true
  /\ PyStr.startswith "data:" (image_source b) = true
  /\ ~ data_image_unchanged (Sv := Demo.services) "https://a.test/x" a Demo.st0
  /\ ~ data_image_unchanged (Sv := Demo.services) "https://a.test/x" b Demo.st0.
Proof.
  intros a b. split; [reflexivity|]. split; [reflexivity|]. split.
  - intros H.
    assert (E : fst (clean_soup (Sv := Demo.services) "https://a.test/x"
                       (body_with [NElem "img" a []]) Demo.st0)
                = Some (body_with [NElem "img" [("src", "data:image/gif;base64,R0lGOD")] []]))
      by (vm_compute; reflexivity).
    unfold data_image_unchanged in H. rewrite H in E. simpl in E. discriminate.
  - intros H.
    assert (E : fst (clean_soup (Sv := Demo.services) "https://a.test/x"
                       (body_with [NElem "img" b []]) Demo.st0)
                = Some (body_with []))
      by (vm_compute; reflexivity).
    unfold data_image_unchanged in H. rewrite H in E. simpl in E. discriminate.
Qed.

(** ** The items of the book *)

Section BookItems.

Context `{Sv : Services}.

Implicit Types (st : env).

Lemma adds_images_refl st : adds_images st st.
Proof. exists []. split; [symmetry; apply app_nil_r|constructor]. Qed.

Lemma adds_images_trans st1 st2 st3 :
  adds_images st1 st2 -> adds_images st2 st3 -> adds_images st1 st3.
Proof.
  intros (n1 & H1 & F1) (n2 & H2 & F2). exists (n1 ++ n2). split.
  - rewrite H2, H1, app_assoc. reflexivity.
  - apply Forall_app. auto.
Qed.

Lemma process_image_adds base_url parent a st r st' :
  process_image base_url parent a st = (r, st') -> adds_images st st'.
Proof.
  intros H. apply process_image_inv in H.
  destruct H as [r _ _ | u p _ _ | u w' _ _ _ | u d m w' _ _ _].
  - apply adds_images_refl.
  - apply adds_images_refl.
  - exists []. split; [symmetry; apply app_nil_r|constructor].
  - exists [IRes (epub_img u m (resize_image m d))]. split; [reflexivity|].
    constructor; [eauto|constructor].
Qed.

Lemma for_nodes_adds (f : node -> M (list node)) l :
  (forall c, In c l -> forall st r st', f c st = (r, st') -> adds_images st st') ->
  forall st r st', for_nodes f l st = (r, st') -> adds_images st st'.
Proof.
  induction l as [|y l IH]; intros Hf st r st' H.
  - cbn in H. injection H as _ <-. apply adds_images_refl.
  - cbn [for_nodes] in H. unfold bind in H.
    destruct (f y st) as [[y'|] st1] eqn:E1.
    + assert (H1 : adds_images st st1) by (eapply Hf; [left; reflexivity|exact E1]).
      destruct (for_nodes f l st1) as [[l'|] st2] eqn:E2.
      * unfold ret in H. injection H as _ <-.
        eapply adds_images_trans; [exact H1|].
        eapply IH; [|exact E2]. intros c Hc. apply Hf. right. exact Hc.
      * injection H as _ <-.
        eapply adds_images_trans; [exact H1|].
        eapply IH; [|exact E2]. intros c Hc. apply Hf. right. exact Hc.
    + injection H as _ <-. eapply Hf; [left; reflexivity|exact E1].
Qed.

Lemma process_images_node_adds base_url n :
  forall parent st r st',
    process_images_node base_url parent n st = (r, st') -> adds_images st st'.
Proof.
  induction n as [s|s|nm a ch IH] using node_induction; intros parent st r st' H.
  - cbn in H. injection H as _ <-. apply adds_images_refl.
  - cbn in H. injection H as _ <-. apply adds_images_refl.
  - cbn [process_images_node] in H. destruct (String.eqb nm "img").
    + unfold bind in H.
      destruct (process_image base_url parent a st) as [[o|] st1] eqn:E.
      * unfold ret in H. injection H as _ <-. eapply process_image_adds; eauto.
      * injection H as _ <-. eapply process_image_adds; eauto.
    + unfold bind in H.
      destruct (for_nodes (process_images_node base_url nm) ch st) as [[ch'|] st1] eqn:E.
      * unfold ret in H. injection H as _ <-.
        eapply for_nodes_adds; [|exact E]. intros c Hc. apply IH. exact Hc.
      * injection H as _ <-.
        eapply for_nodes_adds; [|exact E]. intros c Hc. apply IH. exact Hc.
Qed.

Lemma clean_html_adds raw_html base_url st r st' :
  clean_html raw_html base_url st = (r, st') -> adds_images st st'.
Proof.
  unfold clean_html, bind, clean_soup, process_images.
  destruct (for_nodes _ _ st) as [[soup1|] st1] eqn:E.
  - assert (Ha : adds_images st st1).
    { eapply for_nodes_adds; [|exact E]. intros c _. apply process_images_node_adds. }
    destruct (fix_links_forest base_url soup1); unfold ret; intros H; injection H as _ <-;
      exact Ha.
  - intros H. injection H as _ <-.
    eapply for_nodes_adds; [|exact E]. intros c _. apply process_images_node_adds.
Qed.

Lemma image_not_stylesheet u m d : is_stylesheet (IRes (epub_img u m d)) = false.
Proof. reflexivity. Qed.

Lemma adds_images_stylesheets st st' :
  adds_images st st' ->
  List.filter is_stylesheet (items st') = List.filter is_stylesheet (items st)
  /\ chapters_in (items st') = chapters_in (items st).
Proof.
  intros (new & -> & F). unfold chapters_in. rewrite List.filter_app, flat_map_app.
  assert (E : List.filter is_stylesheet new = []
              /\ flat_map (fun i => match i with IHtml c => [c] | _ => [] end) new = []).
  { induction F as [|i l (u & m & d & ->) _ [IH1 IH2]]; [split; reflexivity|].
    cbn [List.filter flat_map]. rewrite image_not_stylesheet. simpl. auto. }
  destruct E as [-> ->]. rewrite !app_nil_r. auto.
Qed.

End BookItems.

(** ** The loop over the URLs *)

Lemma chapters_of_log_length (log : list attempt) :
  length (flat_map chapter_of log) = length (List.filter is_processed log).
Proof.
  induction log as [|[idx url r] log IH]; [reflexivity|].
  cbn [flat_map List.filter]. rewrite length_app, IH.
  unfold chapter_of, is_processed. simpl. destruct r; reflexivity.
Qed.

Lemma chapters_of_log_names (log : list attempt) :
  List.map html_file_name (flat_map chapter_of log)
  = List.map chapter_file_name (success_positions log).
Proof.
  unfold success_positions.
  induction log as [|[idx url r] log IH]; [reflexivity|].
  cbn [flat_map List.filter]. rewrite List.map_app, IH.
  unfold chapter_of, is_processed. simpl. destruct r; reflexivity.
Qed.

Lemma chapters_of_log_links (log : list attempt) :
  Forall (fun c => html_links c = [stylesheet_link]) (flat_map chapter_of log).
Proof.
  induction log as [|[idx url r] log IH]; [constructor|].
  cbn [flat_map]. apply Forall_app. split; [|exact IH].
  unfold chapter_of. simpl. destruct r; repeat constructor.
Qed.

Lemma filter_length_le {A} (f : A -> bool) (l : list A) :
  (length (List.filter f l) <= length l)%nat.
Proof.
  induction l as [|y l IH]; [reflexivity|]. simpl. destruct (f y); simpl; lia.
Qed.

Lemma filter_all {A} (f : A -> bool) (l : list A) :
  length (List.filter f l) = length l -> List.filter f l = l.
Proof.
  induction l as [|y l IH]; [reflexivity|]. simpl. destruct (f y); simpl; intros H.
  - f_equal. apply IH. lia.
  - pose proof (filter_length_le f l). lia.
Qed.

Lemma success_positions_sorted (log : list attempt) :
  forall idx n,
    List.map at_idx log = seq idx n ->
    StronglySorted lt (success_positions log)
    /\ Forall (fun p => (idx <= p < idx + n)%nat) (success_positions log).
Proof.
  unfold success_positions.
  induction log as [|a log IH]; intros idx n H; [split; constructor|].
  destruct n as [|n]; [discriminate|]. cbn [List.map seq] in H.
  injection H as Ha Hlog. destruct (IH _ _ Hlog) as [Hs Hf].
  assert (Hf' : Forall (fun p => (idx <= p < idx + S n)%nat)
                  (List.map at_idx (List.filter is_processed log))).
  { eapply Forall_impl; [exact Hf|]. simpl. intros p Hp. lia. }
  cbn [List.filter]. destruct (is_processed a); [|split; assumption].
  cbn [List.map]. split.
  - constructor; [exact Hs|]. eapply Forall_impl; [exact Hf|]. simpl. intros p Hp. lia.
  - constructor; [lia|exact Hf'].
Qed.

Section Building.

Context `{Sv : Services}.

Lemma attempt_url_spec timeout idx url (ls : loop_state) :
  let ls' := attempt_url timeout idx url ls in
  exists a,
    at_idx a = idx /\ at_url a = url
    /\ ls_log ls' = ls_log ls ++ [a]
    /\ ls_chapters ls' = ls_chapters ls ++ chapter_of a
    /\ List.filter is_stylesheet (items (ls_env ls'))
       = List.filter is_stylesheet (items (ls_env ls))
    /\ chapters_in (items (ls_env ls')) = chapters_in (items (ls_env ls)) ++ chapter_of a.
Proof.
  unfold attempt_url.
  destruct (fetch_page (world (ls_env ls)) url timeout) as [[[html final_url]|] w].
  2:{ eexists. cbn. repeat split; try reflexivity. rewrite app_nil_r; reflexivity.
      rewrite app_nil_r; reflexivity. }
  destruct (extract_article html final_url) as [[article_title raw_content]|].
  2:{ eexists. cbn. repeat split; try reflexivity. rewrite app_nil_r; reflexivity.
      rewrite app_nil_r; reflexivity. }
  destruct (clean_html raw_content final_url (with_world (ls_env ls) w)) as [r st'] eqn:E.
  apply clean_html_adds in E. apply adds_images_stylesheets in E. destruct E as [E1 E2].
  eexists. cbn. repeat split; try reflexivity.
  - rewrite List.filter_app, E1. cbn. apply app_nil_r.
  - unfold chapters_in in *. rewrite flat_map_app, E2. reflexivity.
Qed.

Lemma for_urls_spec timeout urls :
  forall idx (ls : loop_state),
    let ls' := for_urls timeout idx urls ls in
    exists entries,
      ls_log ls' = ls_log ls ++ entries
      /\ List.map at_idx entries = seq idx (length urls)
      /\ List.map at_url entries = urls
      /\ ls_chapters ls' = ls_chapters ls ++ flat_map chapter_of entries
      /\ List.filter is_stylesheet (items (ls_env ls'))
         = List.filter is_stylesheet (items (ls_env ls))
      /\ chapters_in (items (ls_env ls'))
         = chapters_in (items (ls_env ls)) ++ flat_map chapter_of entries.
Proof.
  induction urls as [|url urls IH]; intros idx ls.
  - exists []. cbn. rewrite !app_nil_r. repeat split; reflexivity.
  - cbn [for_urls].
    destruct (attempt_url_spec timeout idx url ls) as (a & Hi & Hu & Hl & Hc & Hs & Hb).
    destruct (IH (S idx) (attempt_url timeout idx url ls))
      as (entries & Hl' & Hi' & Hu' & Hc' & Hs' & Hb').
    exists (a :: entries). cbn zeta in *.
    rewrite Hl', Hl, Hc', Hc, Hs', Hs, Hb', Hb. cbn [List.map length seq flat_map].
    rewrite Hi, Hu, Hi', Hu', <- !app_assoc. repeat split; reflexivity.
Qed.

(** What [build_epub] leaves: the log follows the input list, the chapters
    are those of the attempts that were processed, and when there is one the
    written book holds them in that order. *)
Lemma build_epub_spec urls output_path title author timeout (w : World) :
  let b := build_epub urls output_path title author timeout w in
  List.map at_idx (build_log b) = seq 1 (length urls)
  /\ List.map at_url (build_log b) = urls
  /\ build_chapters b = flat_map chapter_of (build_log b)
  /\ build_count b = length (build_chapters b)
  /\ (build_chapters b <> [] ->
      exists book,
        build_written b = Some (output_path, book)
        /\ book_spine book = SpineNav :: List.map SpineChapter (build_chapters b)
        /\ book_toc book = List.map toc_entry (build_chapters b)
        /\ List.filter is_stylesheet (book_items book) = [IRes css_item]
        /\ chapters_in (book_items book) = build_chapters b).
Proof.
  unfold build_epub. destruct (new_uuid w) as [identifier w1].
  match goal with |- context [for_urls timeout 1 urls ?i] => set (init := i) end.
  destruct (for_urls_spec timeout urls 1 init) as (entries & Hl & Hi & Hu & Hc & Hs & Hb).
  cbn zeta in *. cbn in Hl, Hc, Hs, Hb.
  destruct (ls_chapters (for_urls timeout 1 urls init)) as [|c cs] eqn:E; cbn.
  - rewrite Hl. repeat split; auto. intros H. contradiction.
  - rewrite Hl. repeat split; auto. intros _. eexists. split; [reflexivity|]. cbn.
    repeat split.
    + rewrite List.filter_app, Hs. reflexivity.
    + unfold chapters_in in *. rewrite flat_map_app, Hb, <- Hc. cbn. f_equal. apply app_nil_r.
Qed.

End Building.

(** ** Chapters and the assembled document *)

Section Chapters.

Context `{Sv : Services}.

Lemma failed_download_drops base_url parent a (st : env) u w' :
  resolves base_url a = Some u -> image_cache st !! u = None ->
  fetch_binary (world st) u = (None, w') ->
  process_image base_url parent a st = (Some Dropped, with_world st w').
Proof.
  intros Hr Hc Hf. unfold resolves in Hr. unfold process_image.
  destruct (negb (PyStr.truthy (image_source a))); [discriminate|].
  destruct (is_tiny a); [discriminate|].
  destruct (PyStr.startswith "data:" (image_source a)); [discriminate|].
  simpl in Hr. rewrite Hr, Hc, Hf. reflexivity.
Qed.

(** C1, as the code has it. A chapter is named after the 1-based position of
    its URL in the whole input list, failed URLs counted: the names follow
    the positions of the processed URLs, which increase strictly and lie
    between 1 and the number of URLs. A failed URL leaves a gap in the
    numbering; when no URL fails the numbers are 1, 2, ... without gap. *)
Theorem chapters_named_by_input_position urls output_path title author timeout (w : World) :
  let b := build_epub urls output_path title author timeout w in
  List.map at_idx (build_log b) = seq 1 (length urls)
  /\ List.map at_url (build_log b) = urls
  /\ List.map html_file_name (build_chapters b)
     = List.map chapter_file_name (success_positions (build_log b))
  /\ StronglySorted lt (success_positions (build_log b))
  /\ Forall (fun p => (1 <= p <= length urls)%nat) (success_positions (build_log b))
  /\ (length (build_chapters b) = length urls ->
      numbered_among_successes (build_chapters b)).
Proof.
  intros b. destruct (build_epub_spec urls output_path title author timeout w)
    as (Hi & Hu & Hc & _). fold b in Hi, Hu, Hc.
  destruct (success_positions_sorted _ _ _ Hi) as [Hs Hf].
  split; [exact Hi|]. split; [exact Hu|]. split.
  { rewrite Hc. apply chapters_of_log_names. }
  split; [exact Hs|]. split.
  { eapply Forall_impl; [exact Hf|]. simpl. intros p Hp. lia. }
  intros Hall. unfold numbered_among_successes.
  rewrite Hc at 1. rewrite chapters_of_log_names. f_equal.
  unfold success_positions. rewrite filter_all.
  - rewrite Hi, Hall. reflexivity.
  - rewrite <- chapters_of_log_length, <- Hc, Hall.
    rewrite <- (length_map at_idx (build_log b)), Hi, length_seq. reflexivity.
Qed.

(** C4. The count returned is the number of chapters; it is at most the
    number of URLs and equals the number of URLs whose fetch and extraction
    both succeeded (the attempts reported as processed). A URL that is
    fetched and extracted always gives a chapter: when the cleaning raises,
    the chapter is made of the raw extracted fragment; and a failed image
    download only drops the image, it does not raise. *)
Theorem chapter_count urls output_path title author timeout (w : World) :
  let b := build_epub urls output_path title author timeout w in
  build_count b = length (build_chapters b)
  /\ (length (build_chapters b) <= length urls)%nat
  /\ List.map at_url (build_log b) = urls
  /\ length (build_chapters b) = length (List.filter is_processed (build_log b))
  /\ build_chapters b = flat_map chapter_of (build_log b)
  /\ (forall idx url (ls : loop_state),
        ls_chapters (attempt_url timeout idx url ls)
        = match fetch_page (world (ls_env ls)) url timeout with
          | (Some (html, final_url), w') =>
              match extract_article html final_url with
              | Some (article_title, raw_content) =>
                  ls_chapters ls
                  ++ [make_chapter idx article_title final_url
                        (default raw_content
                           (fst (clean_html raw_content final_url
                                   (with_world (ls_env ls) w'))))]
              | None => ls_chapters ls
              end
          | (None, _) => ls_chapters ls
          end)
  /\ (forall idx url (ls : loop_state),
        ls_log (attempt_url timeout idx url ls)
        = ls_log ls
          ++ [{| at_idx := idx; at_url := url;
                 at_report :=
                   match fetch_page (world (ls_env ls)) url timeout with
                   | (Some (html, final_url), w') =>
                       match extract_article html final_url with
                       | Some (article_title, raw_content) =>
                           Processed article_title final_url raw_content
                             (fst (clean_html raw_content final_url
                                     (with_world (ls_env ls) w')))
                       | None => ExtractionFailed
                       end
                   | (None, _) => FetchFailed
                   end |}])
  /\ (forall base_url parent a (st : env) u w',
        resolves base_url a = Some u -> image_cache st !! u = None ->
        fetch_binary (world st) u = (None, w') ->
        process_image base_url parent a st = (Some Dropped, with_world st w')).
Proof.
  intros b. destruct (build_epub_spec urls output_path title author timeout w)
    as (Hi & Hu & Hc & Hn & _). fold b in Hi, Hu, Hc, Hn.
  assert (Hlen : length (build_chapters b) = length (List.filter is_processed (build_log b)))
    by (rewrite Hc; apply chapters_of_log_length).
  split; [exact Hn|]. split.
  { rewrite Hlen. etransitivity; [apply filter_length_le|].
    rewrite <- (length_map at_url (build_log b)), Hu. reflexivity. }
  split; [exact Hu|]. split; [exact Hlen|]. split; [exact Hc|]. split.
  - intros idx url ls. unfold attempt_url.
    destruct (fetch_page (world (ls_env ls)) url timeout) as [[[html final_url]|] w'];
      [|reflexivity].
    destruct (extract_article html final_url) as [[article_title raw_content]|];
      [|reflexivity].
    destruct (clean_html raw_content final_url (with_world (ls_env ls) w')) as [r st'].
    reflexivity.
  - split; [|intros base_url parent a st u w'; apply failed_download_drops].
    intros idx url ls. unfold attempt_url.
    destruct (fetch_page (world (ls_env ls)) url timeout) as [[[html final_url]|] w'];
      [|reflexivity].
    destruct (extract_article html final_url) as [[article_title raw_content]|];
      [|reflexivity].
    destruct (clean_html raw_content final_url (with_world (ls_env ls) w')) as [r st'].
    reflexivity.
Qed.

(** C6. When at least one chapter was made, the book written has: exactly one
    stylesheet item, [styles.css], which every chapter links; a table of
    contents with one entry per chapter, in the order of the chapters; a
    spine that is the navigation page followed by the chapters in that same
    order; and that order is the order of the input URLs, restricted to the
    processed ones. *)
Theorem document_assembly urls output_path title author timeout (w : World) :
  let b := build_epub urls output_path title author timeout w in
  build_chapters b <> [] ->
  exists book,
    build_written b = Some (output_path, book)
    /\ List.filter is_stylesheet (book_items book) = [IRes css_item]
    /\ Forall (fun c => html_links c = [stylesheet_link]) (build_chapters b)
    /\ book_toc book = List.map toc_entry (build_chapters b)
    /\ book_spine book = SpineNav :: List.map SpineChapter (build_chapters b)
    /\ chapters_in (book_items book) = build_chapters b
    /\ build_chapters b = flat_map chapter_of (build_log b)
    /\ List.map at_url (build_log b) = urls
    /\ StronglySorted lt (success_positions (build_log b)).
Proof.
  intros b Hne. destruct (build_epub_spec urls output_path title author timeout w)
    as (Hi & Hu & Hc & _ & Hbook). fold b in Hi, Hu, Hc, Hbook.
  destruct (Hbook Hne) as (book & Hw & Hsp & Htoc & Hcss & Hin).
  exists book. split; [exact Hw|]. split; [exact Hcss|]. split.
  { rewrite Hc. apply chapters_of_log_links. }
  split; [exact Htoc|]. split; [exact Hsp|]. split; [exact Hin|].
  split; [exact Hc|]. split; [exact Hu|].
  exact (proj1 (success_positions_sorted _ _ _ Hi)).
Qed.

End Chapters.

Lemma chapters_named_by_input_position_witness :
  List.map html_file_name (build_chapters Demo.built)
  = List.map chapter_file_name (success_positions (build_log Demo.built))
  /\ success_positions (build_log Demo.built) = [1; 3]%nat.
Proof.
  split.
  - apply (chapters_named_by_input_position (Sv := Demo.services)
             Demo.three_urls "out.epub" "Reading list" "PageStack" 30 []).
  - vm_compute. reflexivity.
Defined.

(** C1, as the specification words it, fails: of two URLs the first of which
    cannot be fetched, the only chapter is the first success, and it is named
    after 2. *)
Lemma numbering_counterexample :
  let b := build_epub (Sv := Demo.services) ["https://down.test/1"; "https://a.test/x"]
             "out.epub" "T" "A" 30 [] in
  List.map html_file_name (build_chapters b) = ["chapter_002.xhtml"]
  /\ ~ numbered_among_successes (build_chapters b).
Proof.
  intros b. assert (E : List.map html_file_name (build_chapters b) = ["chapter_002.xhtml"])
    by (vm_compute; reflexivity).
  split; [exact E|].
  unfold numbered_among_successes. rewrite E.
  assert (L : length (build_chapters b) = 1%nat) by (vm_compute; reflexivity).
  rewrite L. vm_compute. discriminate.
Qed.

Lemma chapter_count_witness :
  build_count Demo.built = 2%nat /\ length (build_chapters Demo.built) = 2%nat.
Proof.
  pose proof (chapter_count (Sv := Demo.services)
                Demo.three_urls "out.epub" "Reading list" "PageStack" 30 []) as H.
  destruct H as (Hn & _). fold Demo.built in Hn.
  split; [rewrite Hn|]; vm_compute; reflexivity.
Defined.

Lemma document_assembly_witness :
  exists book,
    build_written Demo.built = Some ("out.epub", book)
    /\ book_spine book = SpineNav :: List.map SpineChapter (build_chapters Demo.built)
    /\ book_toc book = List.map toc_entry (build_chapters Demo.built).
Proof.
  destruct (document_assembly (Sv := Demo.services)
              Demo.three_urls "out.epub" "Reading list" "PageStack" 30 [])
    as (book & Hw & _ & _ & Htoc & Hsp & _).
  - vm_compute. discriminate.
  - exists book. auto.
Defined.

(** ** The state file *)

Lemma rstrip_idempotent s : PyStr.rstrip (PyStr.rstrip s) = PyStr.rstrip s.
Proof.
  induction s as [|c r IH]; [reflexivity|].
  rewrite rstrip_cons. destruct (PyStr.rstrip r) as [|c' r'] eqn:E.
  - destruct (PyStr.is_space c) eqn:Ec; [reflexivity|].
    rewrite rstrip_cons. cbn [PyStr.rstrip]. rewrite Ec. reflexivity.
  - rewrite rstrip_cons, IH. reflexivity.
Qed.

Lemma lstrip_head s :
  PyStr.lstrip s = EmptyString
  \/ exists c r, PyStr.lstrip s = String c r /\ PyStr.is_space c = false.
Proof.
  induction s as [|c r IH]; [left; reflexivity|].
  cbn [PyStr.lstrip]. destruct (PyStr.is_space c) eqn:Ec; [exact IH|].
  right. exists c, r. auto.
Qed.

Lemma rstrip_head c r :
  PyStr.is_space c = false -> exists r', PyStr.rstrip (String c r) = String c r'.
Proof.
  intros Ec. rewrite rstrip_cons. destruct (PyStr.rstrip r) as [|c' r'].
  - rewrite Ec. eauto.
  - eauto.
Qed.

Lemma strip_idempotent s : PyStr.strip (PyStr.strip s) = PyStr.strip s.
Proof.
  unfold PyStr.strip. destruct (lstrip_head s) as [E|(c & r & E & Ec)]; rewrite E.
  - reflexivity.
  - destruct (rstrip_head c r Ec) as [r' E']. rewrite E'.
    cbn [PyStr.lstrip]. rewrite Ec, <- E'. apply rstrip_idempotent.
Qed.

(** The lines [read_urls] and [load_sent_urls] keep are kept again when read
    back. *)
Lemma entries_read_back (l : list string) :
  (forall x, In x l -> PyStr.strip x = x /\ is_entry x = true) ->
  List.filter is_entry (List.map PyStr.strip l) = l.
Proof.
  induction l as [|y l IH]; intros H; [reflexivity|].
  destruct (H y (or_introl eq_refl)) as [Hs He].
  cbn [List.map List.filter]. rewrite Hs, He. f_equal.
  apply IH. intros x Hx. apply H. right. exact Hx.
Qed.

Lemma kept_lines_are_entries (lines : list string) x :
  In x (List.filter is_entry (List.map PyStr.strip lines)) ->
  PyStr.strip x = x /\ is_entry x = true.
Proof.
  intros H. apply filter_In in H. destruct H as [Hin He]. split; [|exact He].
  apply in_map_iff in Hin. destruct Hin as (l & <- & _). apply strip_idempotent.
Qed.

Lemma loaded_are_entries state_file x :
  x ∈ load_sent_urls state_file -> PyStr.strip x = x /\ is_entry x = true.
Proof.
  destruct state_file as [lines|]; cbn [load_sent_urls].
  - rewrite elem_of_list_to_set, list_elem_of_In. apply kept_lines_are_entries.
  - intros H. apply elem_of_empty in H. destruct H.
Qed.

(** What [save_sent_urls] writes, [load_sent_urls] reads back. *)
Lemma load_save (sent_urls : gset string) :
  (forall x, x ∈ sent_urls -> PyStr.strip x = x /\ is_entry x = true) ->
  load_sent_urls (Some (save_sent_urls sent_urls)) = sent_urls.
Proof.
  intros H. cbn [load_sent_urls]. unfold save_sent_urls.
  rewrite entries_read_back.
  - apply set_eq. intros x. rewrite elem_of_list_to_set.
    rewrite merge_sort_Permutation. apply elem_of_elements.
  - intros x Hx. apply H. apply elem_of_elements.
    rewrite <- (merge_sort_Permutation str_le). apply list_elem_of_In. exact Hx.
Qed.

(** ** Incremental delivery *)

Section Delivery.

Context `{Sv : Services}.

(** C7, as the code has it. The state file is written exactly when the build
    count equals the number of URLs requested and the mail step did not
    raise; it then holds, sorted, the URLs sent before together with the new
    ones. In every other case (nothing to do, no chapter, partial build,
    failed mail step) the state file is left as it was. *)
Theorem state_advance_rule urls_file state_file output_template title author timeout mail
  (w : World) :
  let d := build_and_send urls_file state_file output_template title author timeout mail w in
  let new_urls :=
    List.filter (fun url => negb (bool_decide (url ∈ load_sent_urls state_file)))
      (read_urls urls_file) in
  let final_title := if PyStr.truthy title then title else default_title w in
  (advanced d = true <-> dl_built d = Some (dl_requested d) /\ dl_returned d <> Raises)
  /\ (advanced d = true ->
      dl_state_file d
      = Some (save_sent_urls (load_sent_urls state_file ∪ list_to_set new_urls)))
  /\ (advanced d = true ->
      load_sent_urls (dl_state_file d) = load_sent_urls state_file ∪ list_to_set new_urls)
  /\ (advanced d = false -> dl_state_file d = state_file)
  /\ (forall n, dl_built d = Some n ->
        dl_requested d = length new_urls
        /\ n = build_count
                 (build_epub new_urls (resolve_output_path w output_template final_title)
                    final_title author timeout w)).
Proof.
  intros d new_urls final_title.
  assert (Hload : advanced d = true ->
                  dl_state_file d
                  = Some (save_sent_urls (load_sent_urls state_file ∪ list_to_set new_urls)) ->
                  load_sent_urls (dl_state_file d)
                  = load_sent_urls state_file ∪ list_to_set new_urls).
  { intros _ ->. apply load_save. intros x Hx. apply elem_of_union in Hx.
    destruct Hx as [Hx|Hx]; [eapply loaded_are_entries; exact Hx|].
    apply elem_of_list_to_set, list_elem_of_In in Hx. unfold new_urls in Hx.
    apply filter_In in Hx. destruct Hx as [Hx _].
    eapply kept_lines_are_entries. exact Hx. }
  assert (Hmain : (advanced d = true
                   <-> dl_built d = Some (dl_requested d) /\ dl_returned d <> Raises)
                  /\ (advanced d = true ->
                      dl_state_file d
                      = Some (save_sent_urls
                                (load_sent_urls state_file ∪ list_to_set new_urls)))
                  /\ (advanced d = false -> dl_state_file d = state_file)
                  /\ (forall n, dl_built d = Some n ->
                        dl_requested d = length new_urls
                        /\ n = build_count
                                 (build_epub new_urls
                                    (resolve_output_path w output_template final_title)
                                    final_title author timeout w))).
  2:{ destruct Hmain as (H1 & H2 & H3 & H4).
      split; [exact H1|]. split; [exact H2|]. split; [|split; assumption].
      intros Ha. apply Hload; [exact Ha|apply H2; exact Ha]. }
  clear Hload. unfold d, new_urls, final_title, build_and_send.
  clear d new_urls final_title.
  destruct (read_urls urls_file) as [|u us].
  { cbn. split; [split; [discriminate|intros [Hb _]; discriminate]|].
    split; [discriminate|]. split; [reflexivity|discriminate]. }
  destruct (List.filter _ (u :: us)) as [|n ns].
  { cbn. split; [split; [discriminate|intros [Hb _]; discriminate]|].
    split; [discriminate|]. split; [reflexivity|discriminate]. }
  destruct (build_count _) as [|k] eqn:Ek.
  { cbn. split; [split; [discriminate|intros [Hb _]; discriminate]|].
    split; [discriminate|]. split; [reflexivity|].
    intros n0 Hn. injection Hn as <-. split; reflexivity. }
  destruct (send_epub_via_smtp _ _ _) as [[|] w'].
  2:{ cbn. split; [split; [discriminate|intros [_ Hr]; contradiction]|].
      split; [discriminate|]. split; [reflexivity|].
      intros n0 Hn. injection Hn as <-. split; reflexivity. }
  destruct (Nat.eqb (S k) (length (n :: ns))) eqn:Eq.
  - apply Nat.eqb_eq in Eq. cbn.
    split; [split; [intros _; split; [rewrite Eq; reflexivity|discriminate]|reflexivity]|].
    split; [reflexivity|]. split; [discriminate|].
    intros n0 Hn. injection Hn as <-. split; reflexivity.
  - apply Nat.eqb_neq in Eq. cbn.
    split; [split; [discriminate|intros [Hb _]; injection Hb as Hb; cbn in Eq; lia]|].
    split; [discriminate|]. split; [reflexivity|].
    intros n0 Hn. injection Hn as <-. split; reflexivity.
Qed.

End Delivery.

Lemma state_advance_rule_witness :
  advanced Demo.delivered = true
  /\ dl_state_file Demo.delivered = Some ["https://a.test/two"; "https://a.test/x"].
Proof.
  pose proof (state_advance_rule (Sv := Demo.services)
                ["# reading list"; "https://a.test/x"; " https://a.test/two "]
                (Some ["https://a.test/x"]) "out.epub" "" "PageStack" 30
                (Demo.mail "smtp.ok.test") []) as (Hiff & Hfile & _ & _).
  fold Demo.delivered in Hiff, Hfile.
  assert (Ha : advanced Demo.delivered = true).
  { apply Hiff. split; [vm_compute; reflexivity|vm_compute; discriminate]. }
  split; [exact Ha|]. rewrite (Hfile Ha). vm_compute. reflexivity.
Defined.

(** C7, as it is worded, fails in one direction: the only new URL is built
    (the count equals the number requested), the mail step raises, and the
    state file is not written. *)
Lemma state_rule_counterexample :
  dl_built Demo.undelivered = Some (dl_requested Demo.undelivered)
  /\ dl_returned Demo.undelivered = Raises
  /\ dl_state_file Demo.undelivered = None
  /\ ~ state_rule_as_specified Demo.undelivered.
Proof.
  assert (E : dl_built Demo.undelivered = Some (dl_requested Demo.undelivered))
    by (vm_compute; reflexivity).
  split; [exact E|]. split; [vm_compute; reflexivity|]. split; [vm_compute; reflexivity|].
  intros [_ H]. specialize (H E). vm_compute in H. discriminate.
Qed.

(** ** The input file and the state file, further *)

Lemma read_urls_app (l1 l2 : list string) :
  read_urls (l1 ++ l2) = read_urls l1 ++ read_urls l2.
Proof. unfold read_urls. rewrite List.map_app, List.filter_app. reflexivity. Qed.

Lemma is_entry_spec x :
  is_entry x = true -> x <> EmptyString /\ PyStr.startswith "#" x = false.
Proof.
  unfold is_entry. intros H. apply andb_prop in H. destruct H as [Ht Hc].
  split; [intros ->; discriminate|]. apply negb_true_iff. exact Hc.
Qed.

(** X1. Every URL [read_urls] returns is not empty, carries no white space
    around it and does not start with [#]; the URLs come in the order of the
    lines (reading two lists in a row is reading them one after the other);
    and reading the URLs just read again changes nothing. *)
Theorem read_urls_gives_clean_urls (lines : list string) :
  (forall x, In x (read_urls lines) ->
             x <> EmptyString /\ PyStr.strip x = x /\ PyStr.startswith "#" x = false)
  /\ (forall more, read_urls (lines ++ more) = read_urls lines ++ read_urls more)
  /\ read_urls (read_urls lines) = read_urls lines.
Proof.
  split; [|split].
  - intros x Hx. destruct (kept_lines_are_entries _ _ Hx) as [Hs He].
    destruct (is_entry_spec _ He) as [Hne Hc]. auto.
  - intros more. apply read_urls_app.
  - unfold read_urls at 1. apply entries_read_back.
    intros x Hx. apply (kept_lines_are_entries lines). exact Hx.
Qed.

(** X2. Loading a state file, saving what was loaded and loading again gives
    the same set of URLs, whatever the file held (blank lines, comments,
    white space, duplicates, any order). *)
Theorem state_file_round_trip (state_file : option (list string)) :
  load_sent_urls (Some (save_sent_urls (load_sent_urls state_file)))
  = load_sent_urls state_file.
Proof. apply load_save. intros x. apply loaded_are_entries. Qed.

Lemma str_le_total : Total str_le.
Proof. intros a b. unfold str_le. apply String.leb_total. Qed.

(** X3. The lines [save_sent_urls] writes are in ascending order, without
    duplicate, and are exactly the URLs of the set. *)
Theorem saved_urls_sorted (sent_urls : gset string) :
  Sorted str_le (save_sent_urls sent_urls)
  /\ NoDup (save_sent_urls sent_urls)
  /\ (forall x, In x (save_sent_urls sent_urls) <-> x ∈ sent_urls)
  /\ length (save_sent_urls sent_urls) = size sent_urls.
Proof.
  unfold save_sent_urls. split; [|split; [|split]].
  - apply (@Sorted_merge_sort _ str_le _ str_le_total).
  - rewrite merge_sort_Permutation. apply NoDup_elements.
  - intros x. rewrite <- list_elem_of_In, merge_sort_Permutation. apply elem_of_elements.
  - rewrite merge_sort_Permutation. reflexivity.
Qed.

Section DeliveryAgain.

Context `{Sv : Services}.

Lemma advanced_inv urls_file state_file output_template title author timeout mail
  (w : World) :
  let d := build_and_send urls_file state_file output_template title author timeout mail w in
  advanced d = true ->
  read_urls urls_file <> []
  /\ dl_state_file d
     = Some (save_sent_urls
               (load_sent_urls state_file
                ∪ list_to_set
                    (List.filter
                       (fun url => negb (bool_decide (url ∈ load_sent_urls state_file)))
                       (read_urls urls_file)))).
Proof.
  intros d. unfold d, build_and_send. clear d.
  destruct (read_urls urls_file) as [|u us]; [discriminate|].
  destruct (List.filter _ (u :: us)) as [|n ns]; [discriminate|].
  destruct (build_count _) as [|k]; [discriminate|].
  destruct (send_epub_via_smtp _ _ _) as [[|] w']; [|discriminate].
  destruct (Nat.eqb (S k) (length (n :: ns))); [|discriminate].
  intros _. split; [discriminate|reflexivity].
Qed.

Lemma nothing_new (sent : gset string) (urls : list string) :
  (forall x, In x urls -> x ∈ sent) ->
  List.filter (fun url => negb (bool_decide (url ∈ sent))) urls = [].
Proof.
  induction urls as [|y urls IH]; intros H; [reflexivity|].
  cbn [List.filter]. rewrite bool_decide_eq_true_2 by (apply H; left; reflexivity).
  cbn [negb]. apply IH. intros x Hx. apply H. right. exact Hx.
Qed.

(** Every URL of the input already sent: nothing is built, nothing is sent,
    the state file is not touched. *)
Lemma nothing_to_send urls_file state_file output_template title author timeout mail
  (w : World) :
  (forall x, In x (read_urls urls_file) -> x ∈ load_sent_urls state_file) ->
  let d := build_and_send urls_file state_file output_template title author timeout mail w in
  dl_returned d = Returns None /\ dl_state_file d = state_file /\ dl_world d = w
  /\ dl_built d = None.
Proof.
  intros H d. unfold d, build_and_send. clear d.
  rewrite (nothing_new _ _ H).
  destruct (read_urls urls_file); cbn; auto.
Qed.

(** X4. After a delivery that advanced the state, running [build_and_send]
    again on the same input file and the state file just written does
    nothing: it returns [None], builds nothing, sends nothing and leaves the
    state file as it is. *)
Theorem delivered_urls_are_not_sent_again urls_file state_file output_template title author
  timeout mail (w w2 : World) :
  let d := build_and_send urls_file state_file output_template title author timeout mail w in
  advanced d = true ->
  let d2 :=
    build_and_send urls_file (dl_state_file d) output_template title author timeout mail w2 in
  dl_returned d2 = Returns None /\ dl_state_file d2 = dl_state_file d
  /\ dl_world d2 = w2 /\ dl_built d2 = None.
Proof.
  intros d Ha. destruct (advanced_inv _ _ _ _ _ _ _ w Ha) as [_ Hfile]. fold d in Hfile.
  apply nothing_to_send. intros x Hx. rewrite Hfile, load_save.
  - destruct (decide (x ∈ load_sent_urls state_file)) as [Hin|Hout].
    + apply elem_of_union_l. exact Hin.
    + apply elem_of_union_r, elem_of_list_to_set, list_elem_of_In, filter_In.
      split; [exact Hx|]. rewrite bool_decide_eq_false_2 by exact Hout. reflexivity.
  - intros y Hy. apply elem_of_union in Hy.
    destruct Hy as [Hy|Hy]; [eapply loaded_are_entries; exact Hy|].
    apply elem_of_list_to_set, list_elem_of_In, filter_In in Hy. destruct Hy as [Hy _].
    eapply kept_lines_are_entries. exact Hy.
Qed.

(** X5. When the build makes no chapter, [build_and_send] returns 0 without
    calling the mail step (the world is as the build left it, no send is
    announced) and leaves the state file as it is. *)
Theorem nothing_built_nothing_sent urls_file state_file output_template title author timeout
  mail (w : World) :
  let d := build_and_send urls_file state_file output_template title author timeout mail w in
  let new_urls :=
    List.filter (fun url => negb (bool_decide (url ∈ load_sent_urls state_file)))
      (read_urls urls_file) in
  let final_title := if PyStr.truthy title then title else default_title w in
  dl_built d = Some 0%nat ->
  dl_returned d = Returns (Some 0%nat)
  /\ dl_state_file d = state_file
  /\ dl_world d
     = build_world
         (build_epub new_urls (resolve_output_path w output_template final_title)
            final_title author timeout w)
  /\ forall to, ~ In (MsgSend to) (dl_messages d).
Proof.
  intros d new_urls final_title. unfold d, new_urls, final_title, build_and_send.
  clear d new_urls final_title.
  destruct (read_urls urls_file) as [|u us]; [discriminate|].
  destruct (List.filter _ (u :: us)) as [|n ns]; [discriminate|].
  destruct (build_count _) as [|k] eqn:Ek.
  - cbn. intros _. repeat split.
    intros to [H|[H|[]]]; discriminate.
  - destruct (send_epub_via_smtp _ _ _) as [[|] w']; [|discriminate].
    destruct (Nat.eqb (S k) (length (n :: ns))); discriminate.
Qed.

End DeliveryAgain.

Lemma delivered_urls_are_not_sent_again_witness :
  dl_returned
    (build_and_send (Sv := Demo.services)
       ["# reading list"; "https://a.test/x"; " https://a.test/two "]
       (dl_state_file Demo.delivered) "out.epub" "" "PageStack" 30
       (Demo.mail "smtp.ok.test") [])
  = Returns None.
Proof.
  apply (delivered_urls_are_not_sent_again (Sv := Demo.services)
           ["# reading list"; "https://a.test/x"; " https://a.test/two "]
           (Some ["https://a.test/x"]) "out.epub" "" "PageStack" 30
           (Demo.mail "smtp.ok.test") [] []).
  vm_compute. reflexivity.
Defined.

Lemma nothing_built_nothing_sent_witness :
  dl_returned
    (build_and_send (Sv := Demo.services) ["https://down.test/1"] None "out.epub" ""
       "PageStack" 30 (Demo.mail "smtp.ok.test") [])
  = Returns (Some 0%nat).
Proof.
  apply (nothing_built_nothing_sent (Sv := Demo.services) ["https://down.test/1"] None
           "out.epub" "" "PageStack" 30 (Demo.mail "smtp.ok.test") []).
  vm_compute. reflexivity.
Defined.

(** ** The book as a whole *)

Section BookAsWhole.

Context `{Sv : Services}.



End BookAsWhole.

(** *** Chapter file names *)

Lemma decimal_read_back n : read_decimal (PyStr.decimal n) = Some n.
Proof.
  unfold read_decimal, PyStr.decimal. rewrite NilEmpty.usu. cbn [option_map].
  rewrite DecimalNat.Unsigned.of_to. reflexivity.
Qed.

Lemma read_decimal_zero s : read_decimal (String "0" s) = read_decimal s.
Proof.
  unfold read_decimal. cbn [NilEmpty.uint_of_string].
  destruct (NilEmpty.uint_of_string s); reflexivity.
Qed.

Lemma pad3_read_back n : read_decimal (PyStr.pad3 n) = Some n.
Proof.
  unfold PyStr.pad3.
  destruct (String.length (PyStr.decimal n)) as [|[|[|k]]];
    rewrite ?append_cons, ?append_empty, ?read_decimal_zero; apply decimal_read_back.
Qed.

Lemma append_length (s t : string) :
  String.length (s ++ t) = (String.length s + String.length t)%nat.
Proof.
  induction s as [|c r IH]; [reflexivity|]. rewrite append_cons. cbn [String.length].
  rewrite IH. reflexivity.
Qed.

Lemma append_inv_tail (s t u : string) : (s ++ u)%string = (t ++ u)%string -> s = t.
Proof.
  revert t. induction s as [|c r IH]; intros [|d t] H.
  - reflexivity.
  - apply (f_equal String.length) in H. rewrite append_empty, append_length in H.
    cbn [String.length] in H. lia.
  - apply (f_equal String.length) in H. rewrite append_empty, append_length in H.
    cbn [String.length] in H. lia.
  - rewrite !append_cons in H. injection H as -> H. f_equal. apply IH. exact H.
Qed.

Lemma chapter_file_name_inj n m : chapter_file_name n = chapter_file_name m -> n = m.
Proof.
  unfold chapter_file_name. intros H.
  change ("chapter_" ++ ?x)%string with (String "c" (String "h" (String "a" (String "p"
            (String "t" (String "e" (String "r" (String "_" x)))))))) in H.
  injection H as H. apply append_inv_tail in H.
  assert (E : read_decimal (PyStr.pad3 n) = read_decimal (PyStr.pad3 m)) by (rewrite H; reflexivity).
  rewrite !pad3_read_back in E. injection E as ->. reflexivity.
Qed.

Lemma sorted_lt_NoDup (l : list nat) : StronglySorted lt l -> NoDup l.
Proof.
  induction 1 as [|x l _ IH Hx]; constructor; [|exact IH].
  rewrite list_elem_of_In. intros Hin.
  rewrite List.Forall_forall in Hx. specialize (Hx x Hin). lia.
Qed.

(** X7. The zero-padded number in a chapter file name reads back as the
    position it was made from, so different positions give different names;
    and no two chapters of a build share a file name. *)
Theorem chapter_file_names_distinct `{Sv : Services} urls output_path title author timeout
  (w : World) :
  (forall n, read_decimal (PyStr.pad3 n) = Some n)
  /\ (forall n m, chapter_file_name n = chapter_file_name m -> n = m)
  /\ NoDup (List.map html_file_name
              (build_chapters (build_epub urls output_path title author timeout w))).
Proof.
  split; [exact pad3_read_back|]. split; [exact chapter_file_name_inj|].
  destruct (build_epub_spec urls output_path title author timeout w) as (Hi & _ & Hc & _).
  rewrite Hc, chapters_of_log_names.
  apply NoDup_fmap_2; [intros n m; apply chapter_file_name_inj|].
  apply sorted_lt_NoDup. exact (proj1 (success_positions_sorted _ _ _ Hi)).
Qed.

(** ** Escaping in chapter bodies *)

Lemma all_chars_always (p : ascii -> bool) s :
  (forall c, p c = true) -> all_chars p s = true.
Proof.
  intros H. induction s as [|c r IH]; [reflexivity|]. cbn [all_chars]. rewrite H, IH. reflexivity.
Qed.

Lemma replace_char_all (q : ascii -> bool) c new s :
  all_chars q new = true ->
  all_chars (fun d => Ascii.eqb d c || q d) s = true ->
  all_chars q (PyStr.replace_char c new s) = true.
Proof.
  intros Hnew. induction s as [|d r IH]; [reflexivity|].
  cbn [all_chars PyStr.replace_char]. intros H. apply andb_prop in H. destruct H as [Hd Hr].
  destruct (Ascii.eqb d c).
  - rewrite all_chars_app, Hnew, (IH Hr). reflexivity.
  - cbn [orb] in Hd. cbn [all_chars]. rewrite Hd, (IH Hr). reflexivity.
Qed.

Lemma replace_char_absent c new s :
  all_chars (fun d => negb (Ascii.eqb d c)) s = true -> PyStr.replace_char c new s = s.
Proof.
  induction s as [|d r IH]; [reflexivity|].
  cbn [all_chars PyStr.replace_char]. intros H. apply andb_prop in H. destruct H as [Hd Hr].
  apply negb_true_iff in Hd. rewrite Hd, (IH Hr). reflexivity.
Qed.

(** X8. In a chapter body the title is written with no [<], [>] or double
    quote left in it, and the source URL with no double quote left in it, so
    neither can open a tag or close the attribute it stands in; a title
    without these characters is written as it is; and the cleaned content
    closes the body unchanged. *)
Theorem chapter_body_is_escaped (title url content_html : string) :
  all_chars plain_char (escape_title title) = true
  /\ all_chars (fun c => negb (Ascii.eqb c "034"%char)) (escape_url url) = true
  /\ (all_chars plain_char title = true -> escape_title title = title)
  /\ make_chapter_body title url content_html
     = ("<h1 class=" ++ dquote ++ "chapter-title" ++ dquote ++ ">" ++ escape_title title
        ++ "</h1>" ++ newline
        ++ "<p class=" ++ dquote ++ "source-url" ++ dquote ++ ">Source: <a href=" ++ dquote
        ++ escape_url url ++ dquote ++ ">" ++ escape_url url ++ "</a></p>" ++ newline
        ++ "<hr class=" ++ dquote ++ "chapter-rule" ++ dquote ++ "/>" ++ newline
        ++ content_html)%string.
Proof.
  split; [|split; [|split]].
  - unfold escape_title.
    apply replace_char_all; [reflexivity|].
    eapply all_chars_impl;
      [|apply (replace_char_all
                 (fun c => negb (Ascii.eqb c "<"%char) && negb (Ascii.eqb c ">"%char)));
        [reflexivity|]].
    + intros c Hc. unfold plain_char. destruct (Ascii.eqb c "034"%char); [reflexivity|].
      rewrite Hc. reflexivity.
    + eapply all_chars_impl;
        [|apply (replace_char_all (fun c => negb (Ascii.eqb c "<"%char)));
          [reflexivity|apply all_chars_always; intros c; apply orb_negb_r]].
      intros c Hc. destruct (Ascii.eqb c ">"%char); [reflexivity|]. rewrite Hc. reflexivity.
  - unfold escape_url. apply replace_char_all; [reflexivity|].
    apply all_chars_always. intros c. apply orb_negb_r.
  - intros H. unfold escape_title.
    rewrite (replace_char_absent "<"%char), (replace_char_absent ">"%char),
      (replace_char_absent "034"%char); [reflexivity| | |];
      (eapply all_chars_impl; [|exact H]); intros c Hc; unfold plain_char in Hc;
      apply andb_prop in Hc; destruct Hc as [Hc H3]; apply andb_prop in Hc; tauto.
  - reflexivity.
Qed.

Lemma chapter_body_is_escaped_witness :
  escape_title "Rust & Go" = "Rust & Go".
Proof.
  apply (proj1 (proj2 (proj2 (chapter_body_is_escaped "Rust & Go" "https://a.test/x" "")))).
  reflexivity.
Defined.

(** ** Article titles *)

(** X9. The title [extract_article] returns never has white space around it;
    it is the short title when there is one, and then the long title and the
    host do not count, even when the short title is only white space and the
    title comes out empty. Extraction fails exactly when readability
    raises. *)
Theorem article_title_is_stripped `{Sv : Services} (html url : string) :
  (forall t body, extract_article html url = Some (t, body) -> PyStr.strip t = t)
  /\ (forall s l body,
        readability html = Some (s, l, body) -> s <> EmptyString ->
        extract_article html url = Some (PyStr.strip s, body))
  /\ (forall s l body,
        readability html = Some (s, l, body) -> s <> EmptyString ->
        PyStr.strip s = EmptyString ->
        extract_article html url = Some (EmptyString, body))
  /\ (extract_article html url = None <-> readability html = None).
Proof.
  unfold extract_article.
  assert (Hs : forall s l body,
             readability html = Some (s, l, body) -> s <> EmptyString ->
             match readability html with
             | Some (short_title, long_title, body) =>
                 Some (PyStr.strip (str_or short_title (str_or long_title (netloc url))), body)
             | None => None
             end = Some (PyStr.strip s, body)).
  { intros s l body -> Hne. unfold str_or at 1.
    destruct s; [contradiction|reflexivity]. }
  split; [|split; [|split]].
  - intros t body. destruct (readability html) as [[[s l] b]|]; [|discriminate].
    intros H. injection H as <- _. apply strip_idempotent.
  - exact Hs.
  - intros s l body Hr Hne He. rewrite (Hs s l body Hr Hne), He. reflexivity.
  - destruct (readability html) as [[[s l] b]|]; split; try discriminate; reflexivity.
Qed.

Lemma article_title_is_stripped_witness :
  PyStr.strip "About https://a.test/x" = "About https://a.test/x".
Proof.
  apply (proj1 (article_title_is_stripped (Sv := Demo.services)
                  "https://a.test/x" "https://a.test/x")
           "About https://a.test/x" "https://a.test/x").
  vm_compute. reflexivity.
Defined.

(** ** The srcset pass, further *)

Lemma get_set_other k k' v a : k <> k' -> Attrs.get k (Attrs.set k' v a) = Attrs.get k a.
Proof.
  intros Hne. induction a as [|[k0 v0] r IH]; cbn [Attrs.set Attrs.get].
  - destruct (String.eqb k' k) eqn:E; [apply String.eqb_eq in E; congruence|reflexivity].
  - destruct (String.eqb k0 k') eqn:E0; cbn [Attrs.get].
    + apply String.eqb_eq in E0. subst k0.
      destruct (String.eqb k' k) eqn:E; [apply String.eqb_eq in E; congruence|reflexivity].
    + rewrite IH. reflexivity.
Qed.

(** X10. The srcset pass never replaces a source an image already has, and
    touches no attribute other than [src] and [srcset]. *)
Theorem srcset_pass_keeps_the_rest (a : list (string * string)) :
  (forall s, Attrs.get "src" a = Some s -> s <> EmptyString ->
             Attrs.get "src" (fix_srcset a) = Some s)
  /\ (forall k, k <> "srcset" -> k <> "src" ->
                Attrs.get k (fix_srcset a) = Attrs.get k a).
Proof.
  split.
  - intros s Hs Hne. unfold fix_srcset. rewrite Hs.
    assert (E : PyStr.truthy (or_else (Some s) "") = true) by (destruct s; [contradiction|reflexivity]).
    rewrite E, andb_false_r. rewrite get_del_other by discriminate. exact Hs.
  - intros k Hk1 Hk2. unfold fix_srcset. rewrite get_del_other by exact Hk1.
    destruct (_ && _); [|reflexivity].
    destruct (last _); [|reflexivity]. apply get_set_other. exact Hk2.
Qed.

Lemma srcset_pass_keeps_the_rest_witness :
  Attrs.get "src" (fix_srcset [("src", "small.jpg"); ("srcset", "big.jpg 2x")])
  = Some "small.jpg".
Proof.
  apply (proj1 (srcset_pass_keeps_the_rest [("src", "small.jpg"); ("srcset", "big.jpg 2x")])).
  - reflexivity.
  - discriminate.
Defined.

(** ** Downloads *)





(** ** File name slugs *)

Section StripBy.

Variable p : ascii -> bool.







End StripBy.




(** ** What each pass does to the elements of the tree *)

Lemma in_tags_forest (l : list node) e :
  In e (flat_map find_all_tags l) <-> exists c, In c l /\ In e (find_all_tags c).
Proof. apply in_flat_map. Qed.

Lemma remove_comments_tags n e :
  In e (flat_map find_all_tags (remove_comments n)) -> In e (find_all_tags n).
Proof.
  revert e. induction n as [s|s|nm a ch IH] using node_induction; intros e H;
    [exact H|destruct H|].
  cbn [remove_comments flat_map find_all_tags] in *. rewrite app_nil_r in H.
  destruct H as [H|H]; [left; exact H|right].
  apply in_tags_forest in H. destruct H as (c' & Hc' & He).
  apply in_flat_map in Hc'. destruct Hc' as (c & Hc & Hin).
  apply in_tags_forest. exists c. split; [exact Hc|].
  apply (IH c Hc). apply in_tags_forest. eauto.
Qed.

Lemma drop_unwanted_tags n e :
  In e (flat_map find_all_tags (drop_unwanted n)) ->
  In e (find_all_tags n) /\ mem (fst e) _UNWANTED_TAGS = false.
Proof.
  revert e. induction n as [s|s|nm a ch IH] using node_induction; intros e H;
    [destruct H|destruct H|].
  cbn [drop_unwanted] in H. destruct (mem nm _UNWANTED_TAGS) eqn:Eu; [destruct H|].
  cbn [flat_map find_all_tags] in *. rewrite app_nil_r in H.
  destruct H as [<-|H]; [split; [left; reflexivity|exact Eu]|].
  apply in_tags_forest in H. destruct H as (c' & Hc' & He).
  apply in_flat_map in Hc'. destruct Hc' as (c & Hc & Hin).
  destruct (IH c Hc e) as [H1 H2]; [apply in_tags_forest; eauto|].
  split; [|exact H2]. right. apply in_tags_forest. eauto.
Qed.

Lemma srcset_pass_tags n nm a' :
  In (nm, a') (find_all_tags (srcset_pass n)) ->
  exists a, In (nm, a) (find_all_tags n)
            /\ a' = if String.eqb nm "img" then fix_srcset a else a.
Proof.
  revert nm a'. induction n as [s|s|nm0 a0 ch IH] using node_induction; intros nm a' H;
    [destruct H|destruct H|].
  cbn [srcset_pass find_all_tags] in *. destruct H as [H|H].
  - injection H as <- <-. exists a0. split; [left; reflexivity|reflexivity].
  - apply in_tags_forest in H. destruct H as (c' & Hc' & He).
    apply in_map_iff in Hc'. destruct Hc' as (c & <- & Hc).
    destruct (IH c Hc _ _ He) as (a & Ha & E). exists a. split; [|exact E].
    right. apply in_tags_forest. eauto.
Qed.

Lemma strip_attrs_pass_tags n nm a' :
  In (nm, a') (find_all_tags (strip_attrs_pass n)) ->
  exists a, In (nm, a) (find_all_tags n)
            /\ a' = if String.eqb nm "img" then a else strip_unwanted_attrs a.
Proof.
  revert nm a'. induction n as [s|s|nm0 a0 ch IH] using node_induction; intros nm a' H;
    [destruct H|destruct H|].
  cbn [strip_attrs_pass find_all_tags] in *. destruct H as [H|H].
  - injection H as <- <-. exists a0. split; [left; reflexivity|reflexivity].
  - apply in_tags_forest in H. destruct H as (c' & Hc' & He).
    apply in_map_iff in Hc'. destruct Hc' as (c & <- & Hc).
    destruct (IH c Hc _ _ He) as (a & Ha & E). exists a. split; [|exact E].
    right. apply in_tags_forest. eauto.
Qed.

Lemma remove_empty_tags n e :
  In e (flat_map find_all_tags (remove_empty n)) -> In e (find_all_tags n).
Proof.
  revert e. induction n as [s|s|nm a ch IH] using node_induction; intros e H;
    [destruct H|destruct H|].
  rewrite remove_empty_elem in H. destruct (_ && _); [destruct H|].
  cbn [flat_map find_all_tags] in *. rewrite app_nil_r in H.
  destruct H as [H|H]; [left; exact H|right].
  apply in_tags_forest in H. destruct H as (c' & Hc' & He).
  apply in_flat_map in Hc'. destruct Hc' as (c & Hc & Hin).
  apply in_tags_forest. exists c. split; [exact Hc|].
  apply (IH c Hc). apply in_tags_forest. eauto.
Qed.

Lemma try_nodes_from (f : node -> option node) l l' x' :
  try_nodes f l = Some l' -> In x' l' -> exists x, In x l /\ f x = Some x'.
Proof.
  revert l'. induction l as [|y r IH]; intros l' H Hin.
  - cbn in H. injection H as <-. destruct Hin.
  - cbn [try_nodes] in H.
    destruct (f y) as [y'|] eqn:E1; [|discriminate].
    destruct (try_nodes f r) as [r'|] eqn:E2; [|discriminate].
    injection H as <-. destruct Hin as [<-|Hin].
    + exists y. split; [left; reflexivity|exact E1].
    + destruct (IH _ eq_refl Hin) as (x & Hx & Hf). exists x. split; [right; exact Hx|exact Hf].
Qed.

Section PassesOnTags.

Context `{Sv : Services}.

Lemma fix_links_tags base_url n :
  forall n' nm a',
    fix_links base_url n = Some n' -> In (nm, a') (find_all_tags n') ->
    exists a, In (nm, a) (find_all_tags n) /\ link_fixed base_url nm a a'.
Proof.
  induction n as [s|s|nm0 a0 ch IH] using node_induction; intros n' nm a' H Hin.
  - injection H as <-. destruct Hin.
  - injection H as <-. destruct Hin.
  - cbn [fix_links] in H.
    destruct (if String.eqb nm0 "a" then _ else _) as [a1|] eqn:Ea; [|discriminate].
    destruct (try_nodes (fix_links base_url) ch) as [ch'|] eqn:Ech; [|discriminate].
    injection H as <-. cbn [find_all_tags] in Hin. destruct Hin as [Hin|Hin].
    + injection Hin as <- <-. exists a0. split; [left; reflexivity|].
      destruct (String.eqb nm0 "a") eqn:En.
      * apply String.eqb_eq in En. subst nm0.
        destruct (Attrs.get "href" a0) as [h|] eqn:Eh.
        -- destruct (urljoin base_url h) as [h'|] eqn:Eu; [|discriminate].
           injection Ea as <-. right. split; [reflexivity|]. exists h, h'. auto.
        -- injection Ea as <-. left. auto.
      * injection Ea as <-. left. split; [reflexivity|].
        intros ->. discriminate.
    + apply in_tags_forest in Hin. destruct Hin as (c' & Hc' & He).
      destruct (try_nodes_from _ _ _ _ Ech Hc') as (c & Hc & Hf).
      destruct (IH c Hc _ _ _ Hf He) as (a & Ha & Hl). exists a. split; [|exact Hl].
      right. apply in_tags_forest. eauto.
Qed.

Lemma for_nodes_from (f : node -> M (list node)) l (st : env) out st' x :
  for_nodes f l st = (Some out, st') -> In x out ->
  exists c st1 o1 st2, In c l /\ f c st1 = (Some o1, st2) /\ In x o1.
Proof.
  revert st out. induction l as [|y r IH]; intros st out H Hin.
  - cbn in H. injection H as <- <-. destruct Hin.
  - cbn [for_nodes] in H. unfold bind in H.
    destruct (f y st) as [[y'|] st1] eqn:E1; [|discriminate].
    destruct (for_nodes f r st1) as [[r'|] st2] eqn:E2; [|discriminate].
    unfold ret in H. injection H as <- <-. apply in_app_or in Hin. destruct Hin as [Hin|Hin].
    + exists y, st, y', st1. split; [left; reflexivity|]. auto.
    + destruct (IH _ _ E2 Hin) as (c & s1 & o1 & s2 & Hc & Hf & Hx).
      exists c, s1, o1, s2. split; [right; exact Hc|]. auto.
Qed.

Lemma process_image_attrs base_url parent a (st : env) o st' :
  process_image base_url parent a st = (Some o, st') ->
  match o with
  | Cached a' | Embedded a' _ => exists p, a' = _sanitise_attrs (Attrs.set "src" p a)
  | _ => True
  end.
Proof.
  intros H. apply process_image_inv in H.
  inversion H as [r Hr Hor | u p Hr Hc | u w' Hr Hc Hf | u d m w' Hr Hc Hf]; subst.
  - destruct Hor as [Hor|[Hor|Hor]]; try discriminate; injection Hor as ->; exact I.
  - eauto.
  - exact I.
  - eauto.
Qed.

Lemma process_images_node_tags base_url n :
  forall parent (st : env) out st' nm a',
    process_images_node base_url parent n st = (Some out, st') ->
    In (nm, a') (flat_map find_all_tags out) ->
    (mem nm ["figure"; "figcaption"] = true /\ a' = [])
    \/ exists a, In (nm, a) (find_all_tags n) /\ image_processed nm a a'.
Proof.
  induction n as [s|s|nm0 a0 ch IH] using node_induction;
    intros parent st out st' nm a' H Hin.
  - cbn in H. injection H as <- <-. destruct Hin.
  - cbn in H. injection H as <- <-. destruct Hin.
  - cbn [process_images_node] in H. destruct (String.eqb nm0 "img") eqn:En.
    + apply String.eqb_eq in En. subst nm0. unfold bind in H.
      destruct (process_image base_url parent a0 st) as [[o|] st1] eqn:E; [|discriminate].
      unfold ret in H. injection H as <- <-.
      pose proof (process_image_attrs _ _ _ _ _ _ E) as Ho.
      assert (Hch : forall e, In e (flat_map find_all_tags ch) ->
                              In e (find_all_tags (NElem "img" a0 ch)))
        by (intros e He; right; exact He).
      assert (Hme : forall a1, In (nm, a') (find_all_tags (NElem "img" a1 ch)) ->
                               (a1 = a0 \/ exists p, a1 = _sanitise_attrs (Attrs.set "src" p a0)) ->
                               exists a, In (nm, a) (find_all_tags (NElem "img" a0 ch))
                                         /\ image_processed nm a a').
      { intros a1 [Hh|Ht] Ha1.
        - injection Hh as <- <-. exists a0. split; [left; reflexivity|].
          destruct Ha1 as [->|Hp]; [left; reflexivity|right; auto].
        - exists a'. split; [apply Hch; exact Ht|left; reflexivity]. }
      destruct o as [| |a1|a1 [|cap]]; cbn [outcome_nodes flat_map] in Hin;
        rewrite ?app_nil_r in Hin.
      * destruct Hin.
      * right. apply (Hme a0); auto.
      * right. apply (Hme a1); auto.
      * right. apply (Hme a1); auto.
      * cbn [find_all_tags flat_map] in Hin. destruct Hin as [Hin|Hin].
        -- injection Hin as <- <-. left. auto.
        -- rewrite ?app_nil_r in Hin. apply in_app_or in Hin. destruct Hin as [Hin|Hin].
           ++ right. apply (Hme a1); auto.
           ++ destruct cap as [c|]; [|destruct Hin].
              cbn in Hin. destruct Hin as [Hin|[]]. injection Hin as <- <-. left. auto.
    + unfold bind in H.
      destruct (for_nodes (process_images_node base_url nm0) ch st) as [[ch'|] st1] eqn:E;
        [|discriminate].
      unfold ret in H. injection H as <- <-.
      cbn [flat_map find_all_tags] in Hin. rewrite app_nil_r in Hin.
      destruct Hin as [Hin|Hin].
      * injection Hin as <- <-. right. exists a0. split; [left; reflexivity|left; reflexivity].
      * apply in_tags_forest in Hin. destruct Hin as (x & Hx & He).
        destruct (for_nodes_from _ _ _ _ _ _ E Hx) as (c & s1 & o1 & s2 & Hc & Hf & Hxo).
        destruct (IH c Hc _ _ _ _ nm a' Hf) as [Hnew|(a & Ha & Hp)].
        -- apply in_tags_forest. eauto.
        -- left. exact Hnew.
        -- right. exists a. split; [|exact Hp]. right. apply in_tags_forest. eauto.
Qed.

(** Where an element of the cleaned tree comes from: the passes in a row. *)
Lemma clean_soup_tags base_url soup (st : env) out st' nm a' :
  clean_soup base_url soup st = (Some out, st') ->
  In (nm, a') (flat_map find_all_tags out) ->
  mem nm _UNWANTED_TAGS = false
  /\ ((mem nm ["figure"; "figcaption"] = true /\ a' = [])
      \/ exists a0 a1 a2,
           In (nm, a0) (flat_map find_all_tags soup)
           /\ image_processed nm (if String.eqb nm "img" then fix_srcset a0 else a0) a1
           /\ link_fixed base_url nm a1 a2
           /\ a' = if String.eqb nm "img" then a2 else strip_unwanted_attrs a2).
Proof.
  intros H Hin. apply clean_soup_inv in H. destruct H as (soup1 & soup2 & H1 & H2 & ->).
  unfold finish_soup in Hin.
  apply in_tags_forest in Hin. destruct Hin as (x & Hx & He).
  apply in_flat_map in Hx. destruct Hx as (y & Hy & Hx).
  assert (He' : In (nm, a') (find_all_tags y))
    by (apply remove_empty_tags, in_tags_forest; eauto).
  apply in_map_iff in Hy. destruct Hy as (z & <- & Hz).
  destruct (strip_attrs_pass_tags _ _ _ He') as (a2 & Ha2 & E2).
  destruct (try_nodes_from _ _ _ _ H2 Hz) as (z1 & Hz1 & Hf).
  destruct (fix_links_tags _ _ _ _ _ Hf Ha2) as (a1 & Ha1 & Hl).
  unfold process_images in H1.
  destruct (for_nodes_from _ _ _ _ _ _ H1 Hz1) as (c & s1 & o1 & s2 & Hc & Hp & Hz1o).
  destruct (process_images_node_tags _ _ _ _ _ _ nm a1 Hp) as [[Hnew ->]|(a0' & Ha0' & Hip)].
  { apply in_tags_forest. eauto. }
  - assert (Ea2 : a2 = []).
    { destruct Hl as [[-> _]|(-> & _)]; [reflexivity|discriminate]. }
    subst a2. split.
    + cbn in Hnew. destruct (String.eqb nm "figure") eqn:E1;
        [apply String.eqb_eq in E1; subst; reflexivity|].
      destruct (String.eqb nm "figcaption") eqn:E3;
        [apply String.eqb_eq in E3; subst; reflexivity|discriminate].
    + left. split; [exact Hnew|]. rewrite E2. destruct (String.eqb nm "img"); reflexivity.
  - unfold prepare_soup in Hc. apply in_map_iff in Hc. destruct Hc as (c0 & <- & Hc0).
    destruct (srcset_pass_tags _ _ _ Ha0') as (a0 & Ha0 & E0).
    assert (Hdu : In (nm, a0) (flat_map find_all_tags (flat_map remove_comments soup))
                  /\ mem nm _UNWANTED_TAGS = false).
    { apply in_flat_map in Hc0. destruct Hc0 as (c1 & Hc1 & Hc0).
      destruct (drop_unwanted_tags c1 (nm, a0)) as [Hd1 Hd2];
        [apply in_tags_forest; eauto|].
      split; [apply in_tags_forest; eauto|exact Hd2]. }
    destruct Hdu as [Hdu Hun]. split; [exact Hun|]. right.
    exists a0, a1, a2. split; [|rewrite <- E0; auto].
    apply in_tags_forest in Hdu. destruct Hdu as (c2 & Hc2 & Hdu).
    apply in_flat_map in Hc2. destruct Hc2 as (c3 & Hc3 & Hc2).
    apply in_tags_forest. exists c3. split; [exact Hc3|].
    apply remove_comments_tags, in_tags_forest. eauto.
Qed.

End PassesOnTags.

(** ** What each pass does to the comments of the tree *)

Lemma in_comments_forest (l : list node) s :
  In s (flat_map find_all_comments l) <-> exists c, In c l /\ In s (find_all_comments c).
Proof. apply in_flat_map. Qed.

Lemma remove_comments_none n s : ~ In s (flat_map find_all_comments (remove_comments n)).
Proof.
  induction n as [t|t|nm a ch IH] using node_induction; intros H; [destruct H|destruct H|].
  cbn [remove_comments flat_map find_all_comments] in H. rewrite ?app_nil_r in H.
  apply in_comments_forest in H. destruct H as (c' & Hc' & Hs).
  apply in_flat_map in Hc'. destruct Hc' as (c & Hc & Hin).
  apply (IH c Hc). apply in_comments_forest. eauto.
Qed.

Lemma drop_unwanted_comments n s :
  In s (flat_map find_all_comments (drop_unwanted n)) -> In s (find_all_comments n).
Proof.
  induction n as [t|t|nm a ch IH] using node_induction; intros H.
  - destruct H.
  - cbn in H. rewrite ?app_nil_r in H. exact H.
  - cbn [drop_unwanted] in H. destruct (mem nm _UNWANTED_TAGS); [destruct H|].
    cbn [flat_map find_all_comments] in *. rewrite ?app_nil_r in H.
    apply in_comments_forest in H. destruct H as (c' & Hc' & Hs).
    apply in_flat_map in Hc'. destruct Hc' as (c & Hc & Hin).
    apply in_comments_forest. exists c. split; [exact Hc|].
    apply (IH c Hc). apply in_comments_forest. eauto.
Qed.

Lemma srcset_pass_comments n s :
  In s (find_all_comments (srcset_pass n)) -> In s (find_all_comments n).
Proof.
  induction n as [t|t|nm a ch IH] using node_induction; intros H; [exact H|exact H|].
  cbn [srcset_pass find_all_comments] in *.
  apply in_comments_forest in H. destruct H as (c' & Hc' & Hs).
  apply in_map_iff in Hc'. destruct Hc' as (c & <- & Hc).
  apply in_comments_forest. exists c. split; [exact Hc|apply (IH c Hc); exact Hs].
Qed.

Lemma strip_attrs_pass_comments n s :
  In s (find_all_comments (strip_attrs_pass n)) -> In s (find_all_comments n).
Proof.
  induction n as [t|t|nm a ch IH] using node_induction; intros H; [exact H|exact H|].
  cbn [strip_attrs_pass find_all_comments] in *.
  apply in_comments_forest in H. destruct H as (c' & Hc' & Hs).
  apply in_map_iff in Hc'. destruct Hc' as (c & <- & Hc).
  apply in_comments_forest. exists c. split; [exact Hc|apply (IH c Hc); exact Hs].
Qed.

Lemma remove_empty_comments n s :
  In s (flat_map find_all_comments (remove_empty n)) -> In s (find_all_comments n).
Proof.
  induction n as [t|t|nm a ch IH] using node_induction; intros H.
  - destruct H.
  - cbn in H. rewrite ?app_nil_r in H. exact H.
  - rewrite remove_empty_elem in H. destruct (_ && _); [destruct H|].
    cbn [flat_map find_all_comments] in *. rewrite ?app_nil_r in H.
    apply in_comments_forest in H. destruct H as (c' & Hc' & Hs).
    apply in_flat_map in Hc'. destruct Hc' as (c & Hc & Hin).
    apply in_comments_forest. exists c. split; [exact Hc|].
    apply (IH c Hc). apply in_comments_forest. eauto.
Qed.

Section PassesOnComments.

Context `{Sv : Services}.

Lemma fix_links_comments base_url n :
  forall n' s, fix_links base_url n = Some n' ->
               In s (find_all_comments n') -> In s (find_all_comments n).
Proof.
  induction n as [t|t|nm a ch IH] using node_induction; intros n' s H Hin.
  - injection H as <-. exact Hin.
  - injection H as <-. exact Hin.
  - cbn [fix_links] in H.
    destruct (if String.eqb nm "a" then _ else _) as [a1|]; [|discriminate].
    destruct (try_nodes (fix_links base_url) ch) as [ch'|] eqn:Ech; [|discriminate].
    injection H as <-. cbn [find_all_comments] in *.
    apply in_comments_forest in Hin. destruct Hin as (c' & Hc' & Hs).
    destruct (try_nodes_from _ _ _ _ Ech Hc') as (c & Hc & Hf).
    apply in_comments_forest. exists c. split; [exact Hc|]. eapply IH; eauto.
Qed.

Lemma process_images_node_comments base_url n :
  forall parent (st : env) out st' s,
    process_images_node base_url parent n st = (Some out, st') ->
    In s (flat_map find_all_comments out) -> In s (find_all_comments n).
Proof.
  induction n as [t|t|nm a ch IH] using node_induction; intros parent st out st' s H Hin.
  - cbn in H. injection H as <- <-. destruct Hin.
  - cbn in H. injection H as <- <-. cbn in Hin. rewrite ?app_nil_r in Hin. exact Hin.
  - cbn [process_images_node] in H. destruct (String.eqb nm "img").
    + unfold bind in H.
      destruct (process_image base_url parent a st) as [[o|] st1]; [|discriminate].
      unfold ret in H. injection H as <- <-.
      destruct o as [| |a1|a1 [|[c|]]]; cbn in Hin; rewrite ?app_nil_r in Hin;
        [destruct Hin|exact Hin..].
    + unfold bind in H.
      destruct (for_nodes (process_images_node base_url nm) ch st) as [[ch'|] st1] eqn:E;
        [|discriminate].
      unfold ret in H. injection H as <- <-.
      cbn [flat_map find_all_comments] in *. rewrite ?app_nil_r in Hin.
      apply in_comments_forest in Hin. destruct Hin as (x & Hx & Hs).
      destruct (for_nodes_from _ _ _ _ _ _ E Hx) as (c & s1 & o1 & s2 & Hc & Hf & Hxo).
      apply in_comments_forest. exists c. split; [exact Hc|].
      eapply IH; [exact Hc|exact Hf|]. apply in_comments_forest. eauto.
Qed.

Lemma get_filter_drop k (f : string * string -> bool) (a : list (string * string)) :
  (forall v, f (k, v) = false) -> Attrs.get k (List.filter f a) = None.
Proof.
  intros Hf. induction a as [|[k' v'] r IH]; [reflexivity|].
  cbn [List.filter]. destruct (f (k', v')) eqn:E; [|exact IH].
  cbn [Attrs.get]. destruct (String.eqb k' k) eqn:Ek; [|exact IH].
  apply String.eqb_eq in Ek. subst k'. rewrite Hf in E. discriminate.
Qed.

(** X13. The tree [clean_html] serialises holds no comment and no element of
    an unwanted kind ([script], [style], [form], [nav], ...), at any
    depth. *)
Theorem cleaned_tree_is_tidy base_url soup (st : env) out st' :
  clean_soup base_url soup st = (Some out, st') ->
  flat_map find_all_comments out = []
  /\ forall nm a, In (nm, a) (flat_map find_all_tags out) -> mem nm _UNWANTED_TAGS = false.
Proof.
  intros H. split.
  - destruct (flat_map find_all_comments out) as [|s l] eqn:E; [reflexivity|exfalso].
    assert (Hin : In s (flat_map find_all_comments out)) by (rewrite E; left; reflexivity).
    clear E. apply clean_soup_inv in H. destruct H as (soup1 & soup2 & H1 & H2 & ->).
    unfold finish_soup in Hin.
    apply in_comments_forest in Hin. destruct Hin as (x & Hx & Hs).
    apply in_flat_map in Hx. destruct Hx as (y & Hy & Hx).
    assert (Hs' : In s (find_all_comments y))
      by (apply remove_empty_comments, in_comments_forest; eauto).
    apply in_map_iff in Hy. destruct Hy as (z & <- & Hz).
    apply strip_attrs_pass_comments in Hs'.
    destruct (try_nodes_from _ _ _ _ H2 Hz) as (z1 & Hz1 & Hf).
    pose proof (fix_links_comments _ _ _ _ Hf Hs') as Hs1.
    unfold process_images in H1.
    destruct (for_nodes_from _ _ _ _ _ _ H1 Hz1) as (c & s1 & o1 & s2 & Hc & Hp & Hz1o).
    assert (Hs0 : In s (find_all_comments c)).
    { eapply process_images_node_comments; [exact Hp|]. apply in_comments_forest. eauto. }
    unfold prepare_soup in Hc. apply in_map_iff in Hc. destruct Hc as (c0 & <- & Hc0).
    apply srcset_pass_comments in Hs0.
    apply in_flat_map in Hc0. destruct Hc0 as (c1 & Hc1 & Hc0).
    assert (Hs2 : In s (find_all_comments c1))
      by (apply drop_unwanted_comments, in_comments_forest; eauto).
    apply in_flat_map in Hc1. destruct Hc1 as (c2 & Hc2 & Hc1).
    apply (remove_comments_none c2 s). apply in_comments_forest. eauto.
  - intros nm a Hin. exact (proj1 (clean_soup_tags _ _ _ _ _ _ _ H Hin)).
Qed.

(** X14. In the tree [clean_html] serialises no image carries a [srcset]
    attribute. *)
Theorem cleaned_images_have_no_srcset base_url soup (st : env) out st' a :
  clean_soup base_url soup st = (Some out, st') ->
  In ("img", a) (flat_map find_all_tags out) ->
  Attrs.get "srcset" a = None.
Proof.
  intros H Hin. destruct (clean_soup_tags _ _ _ _ _ _ _ H Hin) as [_ [[Hf _]|Hfrom]];
    [discriminate|].
  destruct Hfrom as (a0 & a1 & a2 & _ & Hp & Hl & ->). cbn [String.eqb Ascii.eqb Bool.eqb] in *.
  destruct Hl as [[-> _]|[Hn _]]; [|discriminate].
  destruct Hp as [->|(_ & p & ->)].
  - unfold fix_srcset. apply get_del_same.
  - unfold _sanitise_attrs. apply get_filter_drop. intros v. reflexivity.
Qed.

(** X15. In the tree [clean_html] serialises every link target (the [href]
    of an [a]) is a value [urljoin] returned for the base URL. *)
Theorem cleaned_links_are_joined base_url soup (st : env) out st' a h :
  clean_soup base_url soup st = (Some out, st') ->
  In ("a", a) (flat_map find_all_tags out) ->
  Attrs.get "href" a = Some h ->
  exists h0, urljoin base_url h0 = Some h.
Proof.
  intros H Hin Hh. destruct (clean_soup_tags _ _ _ _ _ _ _ H Hin) as [_ [[Hf _]|Hfrom]];
    [discriminate|].
  destruct Hfrom as (a0 & a1 & a2 & _ & _ & Hl & ->). cbn [String.eqb Ascii.eqb Bool.eqb] in *.
  unfold strip_unwanted_attrs in Hh. rewrite get_filter_keep in Hh by (intros v; reflexivity).
  destruct Hl as [[-> Hnone]|(_ & h1 & h' & Hg & Hj & ->)].
  - rewrite (Hnone eq_refl) in Hh. discriminate.
  - rewrite get_set_same in Hh. injection Hh as <-. eauto.
Qed.

End PassesOnComments.

(** *** Empty blocks *)







Lemma cleaned_tree_is_tidy_witness :
  flat_map find_all_comments (Demo.cleaned Demo.messy) = []
  /\ forall nm a, In (nm, a) (flat_map find_all_tags (Demo.cleaned Demo.messy)) ->
                  mem nm _UNWANTED_TAGS = false.
Proof.
  apply (cleaned_tree_is_tidy (Sv := Demo.services) "https://a.test/x" Demo.messy Demo.st0
           (Demo.cleaned Demo.messy)
           (snd (clean_soup (Sv := Demo.services) "https://a.test/x" Demo.messy Demo.st0))).
  vm_compute. reflexivity.
Defined.

Lemma cleaned_images_have_no_srcset_witness :
  Attrs.get "srcset" [("src", "images/h22.png")] = None.
Proof.
  apply (cleaned_images_have_no_srcset (Sv := Demo.services) "https://a.test/x" Demo.messy
           Demo.st0 (Demo.cleaned Demo.messy)
           (snd (clean_soup (Sv := Demo.services) "https://a.test/x" Demo.messy Demo.st0))).
  - vm_compute. reflexivity.
  - vm_compute. tauto.
Defined.

Lemma cleaned_links_are_joined_witness :
  exists h0, urljoin (Services := Demo.services) "https://a.test/x" h0
             = Some "https://b.test/about".
Proof.
  apply (cleaned_links_are_joined (Sv := Demo.services) "https://a.test/x" Demo.messy
           Demo.st0 (Demo.cleaned Demo.messy)
           (snd (clean_soup (Sv := Demo.services) "https://a.test/x" Demo.messy Demo.st0))
           [("href", "https://b.test/about")]).
  - vm_compute. reflexivity.
  - vm_compute. tauto.
  - reflexivity.
Defined.


(** ** What holds all along a build *)

Section AlongTheBuild.

Context `{Sv : Services}.

Variable R : env -> env -> Prop.

Hypothesis R_refl : forall st, R st st.
Hypothesis R_trans : forall st1 st2 st3, R st1 st2 -> R st2 st3 -> R st1 st3.
Hypothesis R_image :
  forall base_url parent a st r st',
    process_image base_url parent a st = (r, st') -> R st st'.
Hypothesis R_world : forall st w, R st (with_world st w).
Hypothesis R_chapter : forall st c, R st (add_item st (IHtml c)).

Lemma for_nodes_related (f : node -> M (list node)) l :
  (forall c, In c l -> forall st r st', f c st = (r, st') -> R st st') ->
  forall st r st', for_nodes f l st = (r, st') -> R st st'.
Proof.
  induction l as [|y l IH]; intros Hf st r st' H.
  - cbn in H. injection H as _ <-. apply R_refl.
  - cbn [for_nodes] in H. unfold bind in H.
    destruct (f y st) as [[y'|] st1] eqn:E1.
    + assert (H1 : R st st1) by (eapply Hf; [left; reflexivity|exact E1]).
      assert (H2 : forall r2 st2, for_nodes f l st1 = (r2, st2) -> R st1 st2).
      { intros r2 st2. apply IH. intros c Hc. apply Hf. right. exact Hc. }
      destruct (for_nodes f l st1) as [[l'|] st2] eqn:E2; unfold ret in H;
        injection H as _ <-; eapply R_trans; eauto.
    + injection H as _ <-. eapply Hf; [left; reflexivity|exact E1].
Qed.

Lemma process_images_node_related base_url n :
  forall parent st r st',
    process_images_node base_url parent n st = (r, st') -> R st st'.
Proof.
  induction n as [s|s|nm a ch IH] using node_induction; intros parent st r st' H.
  - cbn in H. injection H as _ <-. apply R_refl.
  - cbn in H. injection H as _ <-. apply R_refl.
  - cbn [process_images_node] in H. destruct (String.eqb nm "img"); unfold bind in H.
    + destruct (process_image base_url parent a st) as [[o|] st1] eqn:E;
        unfold ret in H; injection H as _ <-; eapply R_image; eauto.
    + destruct (for_nodes (process_images_node base_url nm) ch st) as [[ch'|] st1] eqn:E;
        unfold ret in H; injection H as _ <-;
        (eapply for_nodes_related; [|exact E]); intros c Hc; apply IH; exact Hc.
Qed.

Lemma clean_html_related raw_html base_url st r st' :
  clean_html raw_html base_url st = (r, st') -> R st st'.
Proof.
  unfold clean_html, bind, clean_soup, process_images.
  destruct (for_nodes _ _ st) as [[soup1|] st1] eqn:E.
  - assert (Ha : R st st1).
    { eapply for_nodes_related; [|exact E]. intros c _. apply process_images_node_related. }
    destruct (fix_links_forest base_url soup1); unfold ret; intros H; injection H as _ <-;
      exact Ha.
  - intros H. injection H as _ <-.
    eapply for_nodes_related; [|exact E]. intros c _. apply process_images_node_related.
Qed.

Lemma attempt_url_related timeout idx url (ls : loop_state) :
  R (ls_env ls) (ls_env (attempt_url timeout idx url ls)).
Proof.
  unfold attempt_url.
  destruct (fetch_page (world (ls_env ls)) url timeout) as [[[html final_url]|] w];
    [|apply R_world].
  destruct (extract_article html final_url) as [[article_title raw_content]|];
    [|apply R_world].
  destruct (clean_html raw_content final_url (with_world (ls_env ls) w)) as [r st'] eqn:E.
  cbn [ls_env]. eapply R_trans; [apply R_world|].
  eapply R_trans; [eapply clean_html_related; exact E|]. apply R_chapter.
Qed.

Lemma for_urls_related timeout urls :
  forall idx (ls : loop_state), R (ls_env ls) (ls_env (for_urls timeout idx urls ls)).
Proof.
  induction urls as [|url urls IH]; intros idx ls; [apply R_refl|].
  cbn [for_urls]. eapply R_trans; [apply attempt_url_related|apply IH].
Qed.

End AlongTheBuild.

Section CacheAndBook.

Context `{Sv : Services}.

Lemma image_items_app l1 l2 : image_items (l1 ++ l2) = image_items l1 ++ image_items l2.
Proof. unfold image_items. apply flat_map_app. Qed.

Lemma cache_in_step_image base_url parent a (st : env) r st' :
  process_image base_url parent a st = (r, st') -> cache_in_step st -> cache_in_step st'.
Proof.
  intros H [Hc Hn]. apply process_image_inv in H.
  destruct H as [r _ _ | u p _ _ | u w' _ _ _ | u d m w' _ Hnone _].
  - split; assumption.
  - split; assumption.
  - split; assumption.
  - split; cbn [items image_cache].
    + intros u' path Hl. destruct (decide (u = u')) as [<-|Hne].
      * rewrite lookup_insert_eq in Hl. injection Hl as <-.
        exists m, (resize_image m d). split; [reflexivity|].
        apply in_or_app. right. left. reflexivity.
      * rewrite lookup_insert_ne in Hl by exact Hne.
        destruct (Hc _ _ Hl) as (m' & d' & -> & Hin). exists m', d'.
        split; [reflexivity|]. apply in_or_app. left. exact Hin.
    + rewrite image_items_app, length_app, Hn, map_size_insert_None by exact Hnone.
      pose proof (image_not_stylesheet u m (resize_image m d)) as Hs.
      unfold image_items. cbn in Hs |- *. rewrite Hs. cbn. lia.
Qed.

Lemma cache_in_step_chapter (st : env) c :
  cache_in_step st -> cache_in_step (add_item st (IHtml c)).
Proof.
  intros [Hc Hn]. split; cbn [add_item items image_cache].
  - intros u path Hl. destruct (Hc _ _ Hl) as (m & d & -> & Hin). exists m, d.
    split; [reflexivity|]. apply in_or_app. left. exact Hin.
  - rewrite image_items_app, length_app, Hn. cbn. lia.
Qed.

Lemma build_epub_loop urls output_path title author timeout (w : World) :
  let b := build_epub urls output_path title author timeout w in
  let ls := for_urls timeout 1 urls (initial_loop_state (snd (new_uuid w))) in
  build_chapters b = ls_chapters ls /\ build_log b = ls_log ls
  /\ forall book, build_written b = Some (output_path, book) ->
                  book_items book = items (ls_env ls) ++ [INcx; INav].
Proof.
  unfold build_epub, initial_loop_state. destruct (new_uuid w) as [identifier w1]. cbn [snd].
  destruct (ls_chapters _) as [|c cs] eqn:E; cbn.
  - repeat split; auto. discriminate.
  - repeat split; auto. intros book H. injection H as <-. reflexivity.
Qed.

(** X17. All along a build the image cache and the book agree: every cached
    URL maps to [images/] + its short hash + an extension, an item was
    registered for it under that path, and the book holds as many image
    items as there are cached URLs, one per distinct absolute URL, across
    all the chapters. *)
Theorem cache_and_book_agree urls output_path title author timeout (w : World) :
  let b := build_epub urls output_path title author timeout w in
  let st := ls_env (for_urls timeout 1 urls (initial_loop_state (snd (new_uuid w)))) in
  cache_in_step st
  /\ forall book, build_written b = Some (output_path, book) ->
                  length (image_items (book_items book)) = size (image_cache st).
Proof.
  intros b st.
  assert (Hst : cache_in_step st).
  { unfold st.
    apply (for_urls_related (fun s s' => cache_in_step s -> cache_in_step s')).
    - auto.
    - auto.
    - intros base_url parent a s r s'. apply cache_in_step_image.
    - intros s w0 H. exact H.
    - intros s c. apply cache_in_step_chapter.
    - unfold initial_loop_state. cbn [ls_env]. split; cbn [image_cache items].
      + intros u path H. rewrite lookup_empty in H. discriminate.
      + reflexivity. }
  split; [exact Hst|]. intros book Hb.
  destruct (build_epub_loop urls output_path title author timeout w) as (_ & _ & Hitems).
  rewrite (Hitems book Hb), image_items_app, length_app. fold st.
  rewrite (proj2 Hst). cbn. lia.
Qed.

Lemma grown_image base_url parent a (st : env) r st' :
  process_image base_url parent a st = (r, st') -> grown st st'.
Proof.
  intros H. split.
  - destruct (process_image_adds _ _ _ _ _ _ H) as (new & Hn & _). eauto.
  - intros u path. eapply step_cache_mono. exact H.
Qed.

Lemma grown_trans (st1 st2 st3 : env) : grown st1 st2 -> grown st2 st3 -> grown st1 st3.
Proof.
  intros [[n1 H1] C1] [[n2 H2] C2]. split.
  - exists (n1 ++ n2). rewrite H2, H1, app_assoc. reflexivity.
  - intros u path H. apply C2, C1. exact H.
Qed.

Lemma grown_refl (st : env) : grown st st.
Proof. split; [exists []; symmetry; apply app_nil_r|auto]. Qed.

(** X18. Nothing is ever taken back during a build: the items of the book are
    only appended to, and a URL once cached keeps its path; this holds across
    the cleaning of one page, even when the cleaning raises, and across the
    whole loop over the URLs. *)
Theorem book_and_cache_only_grow timeout :
  (forall raw_html base_url (st : env),
      grown st (snd (clean_html raw_html base_url st)))
  /\ (forall urls idx (ls : loop_state),
        grown (ls_env ls) (ls_env (for_urls timeout idx urls ls)))
  /\ (forall urls idx (ls : loop_state),
        exists more, ls_chapters (for_urls timeout idx urls ls) = ls_chapters ls ++ more).
Proof.
  assert (Hw : forall (st : env) w, grown st (with_world st w))
    by (intros st w; split; [exists []; symmetry; apply app_nil_r|auto]).
  assert (Hc : forall (st : env) c, grown st (add_item st (IHtml c)))
    by (intros st c; split; [exists [IHtml c]; reflexivity|auto]).
  split; [|split].
  - intros raw_html base_url st.
    destruct (clean_html raw_html base_url st) as [r st'] eqn:E. cbn [snd].
    eapply (clean_html_related grown grown_refl grown_trans grown_image); exact E.
  - intros urls idx ls.
    apply (for_urls_related grown grown_refl grown_trans grown_image Hw Hc).
  - intros urls idx ls.
    destruct (for_urls_spec timeout urls idx ls) as (entries & _ & _ & _ & H & _).
    eauto.
Qed.

End CacheAndBook.

(** ** Pages without images, and when cleaning can raise *)

Section CleaningEdges.

Context `{Sv : Services}.

Lemma find_all_img_tags n :
  forall parent p a, In (p, a) (find_all_img parent n) -> In ("img", a) (find_all_tags n).
Proof.
  induction n as [s|s|nm a0 ch IH] using node_induction; intros parent p a H;
    [destruct H|destruct H|].
  cbn [find_all_img find_all_tags] in *. destruct (String.eqb nm "img") eqn:E.
  - apply String.eqb_eq in E. subst nm. destruct H as [H|[]]. injection H as _ <-.
    left. reflexivity.
  - right. apply in_flat_map in H. destruct H as (c & Hc & H).
    apply in_tags_forest. exists c. split; [exact Hc|]. eapply IH; eauto.
Qed.

Lemma prepare_soup_tags soup nm a' :
  In (nm, a') (flat_map find_all_tags (prepare_soup soup)) ->
  exists a, In (nm, a) (flat_map find_all_tags soup).
Proof.
  unfold prepare_soup. intros H.
  apply in_tags_forest in H. destruct H as (c & Hc & H).
  apply in_map_iff in Hc. destruct Hc as (c0 & <- & Hc0).
  apply srcset_pass_tags in H. destruct H as (a & H & _). exists a.
  assert (H1 : In (nm, a) (flat_map find_all_tags (flat_map remove_comments soup))).
  { apply in_flat_map in Hc0. destruct Hc0 as (c1 & Hc1 & Hc0).
    apply in_tags_forest. exists c1. split; [exact Hc1|].
    apply (drop_unwanted_tags c1 (nm, a)).
    apply in_tags_forest. exists c0. split; assumption. }
  apply in_tags_forest in H1. destruct H1 as (c2 & Hc2 & H1).
  apply in_flat_map in Hc2. destruct Hc2 as (c3 & Hc3 & Hc2).
  apply in_tags_forest. exists c3. split; [exact Hc3|].
  apply remove_comments_tags. apply in_tags_forest. exists c2. split; assumption.
Qed.

(** X19. A page that holds no image element is cleaned without any download
    and without touching the book or the image cache: the state after
    cleaning is the state before, whether or not the cleaning raises. *)
Theorem no_image_no_download base_url soup (st : env) :
  (forall a, ~ In ("img", a) (flat_map find_all_tags soup)) ->
  snd (clean_soup base_url soup st) = st.
Proof.
  intros Hno.
  assert (Himgs : flat_map (find_all_img "[document]") (prepare_soup soup) = []).
  { destruct (flat_map (find_all_img "[document]") (prepare_soup soup)) as [|[p a] l] eqn:E;
      [reflexivity|exfalso].
    assert (Hin : In (p, a) (flat_map (find_all_img "[document]") (prepare_soup soup)))
      by (rewrite E; left; reflexivity).
    apply in_flat_map in Hin. destruct Hin as (c & Hc & Hin).
    apply find_all_img_tags in Hin.
    destruct (prepare_soup_tags soup "img" a) as (a0 & Ha0).
    - apply in_tags_forest. exists c. split; assumption.
    - exact (Hno a0 Ha0). }
  pose proof (proj1 (process_images_as_loop base_url "[document]" (prepare_soup soup) st))
    as Hs.
  rewrite Himgs in Hs. cbn in Hs.
  unfold clean_soup.
  destruct (process_images base_url "[document]" (prepare_soup soup) st) as [[soup1|] st1];
    cbn [snd] in Hs; subst st1; [|reflexivity].
  destruct (fix_links_forest base_url soup1); reflexivity.
Qed.







End CleaningEdges.

Lemma no_image_no_download_witness :
  snd (clean_soup (Sv := Demo.services) "https://a.test/x"
         [NElem "p" [("class", "lead")] [NText "hello"; NComment "note"]] Demo.st0)
  = Demo.st0.
Proof.
  apply (no_image_no_download (Sv := Demo.services)).
  intros a H. cbn in H. destruct H as [H|[]]. discriminate H.
Defined.


(** ** The watch loop *)

Section WatchLoop.

Context `{Sv : Services}.

Variable sha256 : list string -> string.
Variable args : Args.

Lemma build_and_send_state urls_file state_file output_template title author timeout mail
  (w : World) :
  let d := build_and_send urls_file state_file output_template title author timeout mail w in
  (advanced d = false /\ dl_state_file d = state_file)
  \/ (advanced d = true /\ dl_returned d <> Raises
      /\ dl_state_file d
         = Some (save_sent_urls
                   (load_sent_urls state_file
                    ∪ list_to_set
                        (List.filter
                           (fun url => negb (bool_decide (url ∈ load_sent_urls state_file)))
                           (read_urls urls_file))))).
Proof.
  intros d. unfold d, build_and_send. clear d.
  destruct (read_urls urls_file) as [|u us]; [left; split; reflexivity|].
  destruct (List.filter _ (u :: us)) as [|n ns]; [left; split; reflexivity|].
  destruct (build_count _) as [|k]; [left; split; reflexivity|].
  destruct (send_epub_via_smtp _ _ _) as [[|] w']; [|left; split; reflexivity].
  destruct (Nat.eqb (S k) (length (n :: ns))); [|left; split; reflexivity].
  right. split; [reflexivity|]. split; [discriminate|reflexivity].
Qed.

Lemma build_and_send_keeps_sent urls_file state_file output_template title author timeout
  mail (w : World) :
  load_sent_urls state_file
  ⊆ load_sent_urls
      (dl_state_file
         (build_and_send urls_file state_file output_template title author timeout mail w)).
Proof.
  destruct (build_and_send_state urls_file state_file output_template title author timeout
              mail w) as [[_ ->]|(_ & _ & ->)]; [reflexivity|].
  rewrite load_save; [apply union_subseteq_l|].
  intros x Hx. apply elem_of_union in Hx. destruct Hx as [Hx|Hx].
  - eapply loaded_are_entries. exact Hx.
  - apply elem_of_list_to_set, list_elem_of_In, filter_In in Hx.
    apply (kept_lines_are_entries urls_file). exact (proj1 Hx).
Qed.

Lemma watch_quiet polls : forall (s : watcher),
  Forall (fun p => file_hash sha256 (hashed p) = Some (last_hash s)) polls ->
  watch sha256 args polls s = (s, Stopped).
Proof.
  induction polls as [|p polls IH]; intros s H; [reflexivity|].
  inversion H as [|p' l' Hp Hl]; subst. cbn [watch]. rewrite Hp, String.eqb_refl.
  apply IH. exact Hl.
Qed.

(** X21. As long as the hash of the URL file is the one last seen, the watch
    loop does nothing at all: no build, no mail, no write of the state file,
    no use of the network, however many times it polls. *)
Theorem unchanged_file_is_left_alone polls (s : watcher) :
  Forall (fun p => file_hash sha256 (hashed p) = Some (last_hash s)) polls ->
  watch sha256 args polls s = (s, Stopped).
Proof. apply watch_quiet. Qed.

Lemma last_hash_on_change h file (s : watcher) : last_hash (on_change args h file s) = h.
Proof. destruct file; reflexivity. Qed.

(** X22. A change of the URL file is handled once, whatever came of it: the
    hash is recorded before [build_and_send] runs, so when the mail step
    raises, the URL file cannot be read, or the build is partial, the
    following polls of the same file do not try again; the URLs are only
    retried after the file changes once more. *)
Theorem failed_delivery_is_not_retried p h rest (s : watcher) :
  file_hash sha256 (hashed p) = Some h ->
  Forall (fun q => file_hash sha256 (hashed q) = Some h) rest ->
  watch sha256 args (p :: rest) s = watch sha256 args [p] s.
Proof.
  intros Hp Hrest. cbn [watch]. rewrite Hp.
  destruct (String.eqb h (last_hash s)) eqn:E.
  - apply String.eqb_eq in E. subst h. apply watch_quiet. exact Hrest.
  - apply watch_quiet. rewrite last_hash_on_change. exact Hrest.
Qed.

Lemma on_change_keeps_sent h file (s : watcher) :
  load_sent_urls (wt_state_file s) ⊆ load_sent_urls (wt_state_file (on_change args h file s)).
Proof.
  destruct file as [lines|]; cbn [on_change wt_state_file]; [|reflexivity].
  apply build_and_send_keeps_sent.
Qed.

Lemma on_change_events h file (s : watcher) :
  exists e, wt_events (on_change args h file s) = wt_events s ++ [e]
            /\ forall d, e = Delivered d ->
                 wt_state_file (on_change args h file s) = dl_state_file d
                 /\ ((advanced d = false /\ dl_state_file d = wt_state_file s)
                     \/ (advanced d = true /\ dl_returned d <> Raises)).
Proof.
  destruct file as [lines|]; cbn [on_change wt_events wt_state_file].
  - eexists. split; [reflexivity|]. intros d Hd. injection Hd as <-.
    split; [reflexivity|].
    destruct (build_and_send_state lines (wt_state_file s) (arg_output_template args)
                (arg_title args) (arg_author args) (arg_timeout args) (arg_mail args)
                (wt_world s)) as [H|(H1 & H2 & _)]; [left; exact H|right; split; assumption].
  - exists Unreadable. split; [reflexivity|]. discriminate.
Qed.

(** X23. Along a run of the watch loop the set of URLs recorded as sent only
    grows, whatever the polls find and however the run ends; the loop logs at
    most one event per poll; and when the state file differs at the end from
    what it was at the start, some delivery of the run reported the update,
    and that delivery did not raise. *)
Theorem watch_never_forgets_sent_urls polls (s : watcher) :
  let s' := fst (watch sha256 args polls s) in
  load_sent_urls (wt_state_file s) ⊆ load_sent_urls (wt_state_file s')
  /\ (exists new, wt_events s' = wt_events s ++ new /\ length new <= length polls
        /\ (wt_state_file s' = wt_state_file s
            \/ exists d, In d (deliveries new) /\ advanced d = true
                         /\ dl_returned d <> Raises)).
Proof.
  revert s. induction polls as [|p polls IH]; intros s; cbn [watch].
  - cbn. split; [reflexivity|]. exists []. rewrite app_nil_r. auto.
  - destruct (file_hash sha256 (hashed p)) as [h|].
    2:{ cbn. split; [reflexivity|]. exists []. rewrite app_nil_r.
        split; [reflexivity|]. split; [cbn; lia|left; reflexivity]. }
    destruct (String.eqb h (last_hash s)).
    + destruct (IH s) as [H1 (new & H2 & H3 & H4)]. split; [exact H1|].
      exists new. split; [exact H2|]. split; [cbn; lia|exact H4].
    + destruct (IH (on_change args h (reread p) s)) as [H1 (new & H2 & H3 & H4)].
      split; [etransitivity; [apply on_change_keeps_sent|exact H1]|].
      destruct (on_change_events h (reread p) s) as (e & He & Hd).
      exists (e :: new). split; [rewrite H2, He, <- app_assoc; reflexivity|].
      split; [cbn; lia|].
      destruct H4 as [H4|(d & Hin & Ha & Hr)].
      * destruct e as [d|].
        -- destruct (Hd d eq_refl) as [Hs [[_ Hu]|[Ha Hr]]].
           ++ left. rewrite H4, Hs. exact Hu.
           ++ right. exists d. split; [left; reflexivity|]. split; assumption.
        -- left. rewrite H4.
           destruct (reread p); [|reflexivity].
           cbn [on_change wt_events] in He. apply app_inj_tail in He.
           destruct He as [_ He]. discriminate He.
      * right. exists d. split; [|split; assumption].
        unfold deliveries. cbn [flat_map]. apply in_or_app. right. exact Hin.
Qed.

End WatchLoop.

Lemma unchanged_file_is_left_alone_witness :
  watch (Sv := Demo.services) Demo.digest Demo.args_down
    [Demo.edited; Demo.edited; Demo.edited]
    (start Demo.digest ["https://a.test/x"] None [])
  = (start (Sv := Demo.services) Demo.digest ["https://a.test/x"] None [], Stopped).
Proof.
  apply (unchanged_file_is_left_alone (Sv := Demo.services)).
  repeat constructor.
Defined.

Lemma failed_delivery_is_not_retried_witness :
  watch (Sv := Demo.services) Demo.digest Demo.args_down
    [Demo.edited; Demo.edited; Demo.edited] (start Demo.digest [] None [])
  = watch (Sv := Demo.services) Demo.digest Demo.args_down
      [Demo.edited] (start Demo.digest [] None [])
  /\ (deliveries (wt_events (fst (watch (Sv := Demo.services) Demo.digest Demo.args_down
                                [Demo.edited] (start Demo.digest [] None []))))
      = [Demo.undelivered]
      /\ dl_returned Demo.undelivered = Raises).
Proof.
  split.
  - apply (failed_delivery_is_not_retried (Sv := Demo.services) Demo.digest Demo.args_down
             Demo.edited "https://a.test/x").
    + reflexivity.
    + repeat constructor.
  - split; vm_compute; reflexivity.
Defined.
